(** * Graphite: performance model, LCP and MCP control loops

    A shallow embedding of
      - common/performance_model/core_perf_model.cc
      - common/performance_model/performance_models/magic_pep_performance_model.cc
      - common/system/lcp.cc
      - common/system/mcp.cc
    and the properties of these that the specification states. *)

From Stdlib Require Import String ZArith List Bool Lia Arith.
From Stdlib Require Import Floats.SpecFloat.
From coqutil Require Import Byte Word.LittleEndianList.
Import ListNotations.

Local Open Scope Z_scope.

(** ** Machine integers *)

Module UInt64.
Definition modulus : Z := 2 ^ 64.

(** Arithmetic on [UInt64] is arithmetic modulo [2^64]. *)
Definition wrap (z : Z) : Z := z mod modulus.
Definition add (a b : Z) : Z := wrap (a + b).
Definition sub (a b : Z) : Z := wrap (a - b).
Definition in_range (z : Z) : Prop := 0 <= z < modulus.
End UInt64.

(** ** [float]: IEEE-754 binary32, round to nearest even

    Every float in [CorePerfModel] is [volatile float], so each
    intermediate result is rounded to binary32. *)

Module Float32.
Definition prec : Z := 24.
Definition emax : Z := 128.

Definition float : Type := spec_float.

Definition zero : float := S754_zero false.
Definition add : float -> float -> float := SFadd prec emax.
Definition mul : float -> float -> float := SFmul prec emax.
Definition div : float -> float -> float := SFdiv prec emax.

(** [static_cast<float>(n)] for an unsigned integer [n]. *)
Definition of_UInt64 (n : Z) : float := binary_normalize prec emax n 0 false.
End Float32.

Definition float : Type := Float32.float.

(** ** Instructions, operands and dynamic information *)

(** [InstructionType] is declared in instruction.h, which is not part of
    the sources at hand; the three types the magic PEP model names are kept
    apart from the rest of the enumeration. *)
Inductive InstructionType : Type :=
| INST_RECV
| INST_SYNC
| INST_SPAWN
| INST_OTHER (tag : nat).

Inductive OperandType : Type := REGISTER | MEMORY | IMMEDIATE.
Inductive OperandDirection : Type := READ | WRITE.

Record Operand : Type := mkOperand {
  m_type : OperandType;
  m_direction : OperandDirection
}.

Definition OperandList : Type := list Operand.

Record Instruction : Type := mkInstruction {
  getType : InstructionType;
  getOperands : OperandList;
  getCost : Z                                   (* UInt64 *)
}.

Inductive DynamicInfoType : Type := MEMORY_READ | MEMORY_WRITE | BRANCH.

(** A [DynamicInstructionInfo] is a tag and a union; only the member the
    tag names is meaningful. *)
Inductive DynamicInstructionInfo : Type :=
| MemoryInfoRead (addr latency : Z)
| MemoryInfoWrite (addr latency : Z)
| BranchInfo (taken : bool) (target : Z).

Definition info_type (info : DynamicInstructionInfo) : DynamicInfoType :=
  match info with
  | MemoryInfoRead _ _ => MEMORY_READ
  | MemoryInfoWrite _ _ => MEMORY_WRITE
  | BranchInfo _ _ => BRANCH
  end.

(** [info.memory_info.latency]; read only behind an assertion on the tag. *)
Definition memory_info_latency (info : DynamicInstructionInfo) : Z :=
  match info with
  | MemoryInfoRead _ l => l
  | MemoryInfoWrite _ l => l
  | BranchInfo _ _ => 0
  end.

Definition DynamicInfoType_eqb (a b : DynamicInfoType) : bool :=
  match a, b with
  | MEMORY_READ, MEMORY_READ | MEMORY_WRITE, MEMORY_WRITE | BRANCH, BRANCH => true
  | _, _ => false
  end.

Record BasicBlock : Type := mkBasicBlock {
  isDynamic : bool;
  instructions : list Instruction
}.

(** Objects handed to [delete]. *)
Inductive Freed : Type :=
| FreedInstruction (i : Instruction)
| FreedBasicBlock (bb : BasicBlock).

(** ** The process-wide singletons the model consults *)

Record Config : Type := mkConfig {
  getEnablePerformanceModeling : bool;
  getMCPCoreNum : Z;
  getTotalCores : nat;
  getProcessCount : nat;
  getCoreListForProcess : nat -> list Z;
  getCurrentCoreID : Z       (* Sim()->getTileManager()->getCurrentCoreID() *)
}.

(** ** State of a [CorePerfModel] *)

(** Modelled from the spec: the member declarations of core_perf_model.h,
    which is not part of the sources at hand. The members and their initial
    values are those of the constructor; [m_total_time] is taken to be a
    [float] like the two frequencies it is computed from, and the cursor
    [m_current_ins_index] an index into the head block.
    [m_instruction_count] is the one member [MagicPepPerformanceModel]
    adds; [freed] logs the objects the model has deleted. *)
Record CorePerfModel : Type := mkCorePerfModel {
  m_cycle_count : Z;                                     (* UInt64 *)
  m_frequency : float;
  m_average_frequency : float;
  m_total_time : float;
  m_checkpointed_cycle_count : Z;                        (* UInt64 *)
  m_enabled : bool;
  m_current_ins_index : nat;
  m_basic_block_queue : list BasicBlock;                 (* front first *)
  m_dynamic_info_queue : list DynamicInstructionInfo;    (* front first *)
  m_instruction_count : Z;                               (* UInt64 *)
  freed : list Freed
}.

Definition set_cycle_count (v : Z) (s : CorePerfModel) : CorePerfModel :=
  mkCorePerfModel v (m_frequency s) (m_average_frequency s) (m_total_time s)
    (m_checkpointed_cycle_count s) (m_enabled s) (m_current_ins_index s)
    (m_basic_block_queue s) (m_dynamic_info_queue s) (m_instruction_count s) (freed s).

Definition set_frequency (v : float) (s : CorePerfModel) : CorePerfModel :=
  mkCorePerfModel (m_cycle_count s) v (m_average_frequency s) (m_total_time s)
    (m_checkpointed_cycle_count s) (m_enabled s) (m_current_ins_index s)
    (m_basic_block_queue s) (m_dynamic_info_queue s) (m_instruction_count s) (freed s).

Definition set_average_frequency (v : float) (s : CorePerfModel) : CorePerfModel :=
  mkCorePerfModel (m_cycle_count s) (m_frequency s) v (m_total_time s)
    (m_checkpointed_cycle_count s) (m_enabled s) (m_current_ins_index s)
    (m_basic_block_queue s) (m_dynamic_info_queue s) (m_instruction_count s) (freed s).

Definition set_total_time (v : float) (s : CorePerfModel) : CorePerfModel :=
  mkCorePerfModel (m_cycle_count s) (m_frequency s) (m_average_frequency s) v
    (m_checkpointed_cycle_count s) (m_enabled s) (m_current_ins_index s)
    (m_basic_block_queue s) (m_dynamic_info_queue s) (m_instruction_count s) (freed s).

Definition set_checkpointed_cycle_count (v : Z) (s : CorePerfModel) : CorePerfModel :=
  mkCorePerfModel (m_cycle_count s) (m_frequency s) (m_average_frequency s) (m_total_time s)
    v (m_enabled s) (m_current_ins_index s)
    (m_basic_block_queue s) (m_dynamic_info_queue s) (m_instruction_count s) (freed s).

Definition set_enabled (v : bool) (s : CorePerfModel) : CorePerfModel :=
  mkCorePerfModel (m_cycle_count s) (m_frequency s) (m_average_frequency s) (m_total_time s)
    (m_checkpointed_cycle_count s) v (m_current_ins_index s)
    (m_basic_block_queue s) (m_dynamic_info_queue s) (m_instruction_count s) (freed s).

Definition set_current_ins_index (v : nat) (s : CorePerfModel) : CorePerfModel :=
  mkCorePerfModel (m_cycle_count s) (m_frequency s) (m_average_frequency s) (m_total_time s)
    (m_checkpointed_cycle_count s) (m_enabled s) v
    (m_basic_block_queue s) (m_dynamic_info_queue s) (m_instruction_count s) (freed s).

Definition set_basic_block_queue (v : list BasicBlock) (s : CorePerfModel) : CorePerfModel :=
  mkCorePerfModel (m_cycle_count s) (m_frequency s) (m_average_frequency s) (m_total_time s)
    (m_checkpointed_cycle_count s) (m_enabled s) (m_current_ins_index s)
    v (m_dynamic_info_queue s) (m_instruction_count s) (freed s).

Definition set_dynamic_info_queue (v : list DynamicInstructionInfo) (s : CorePerfModel)
  : CorePerfModel :=
  mkCorePerfModel (m_cycle_count s) (m_frequency s) (m_average_frequency s) (m_total_time s)
    (m_checkpointed_cycle_count s) (m_enabled s) (m_current_ins_index s)
    (m_basic_block_queue s) v (m_instruction_count s) (freed s).

Definition set_instruction_count (v : Z) (s : CorePerfModel) : CorePerfModel :=
  mkCorePerfModel (m_cycle_count s) (m_frequency s) (m_average_frequency s) (m_total_time s)
    (m_checkpointed_cycle_count s) (m_enabled s) (m_current_ins_index s)
    (m_basic_block_queue s) (m_dynamic_info_queue s) v (freed s).

Definition log_freed (o : Freed) (s : CorePerfModel) : CorePerfModel :=
  mkCorePerfModel (m_cycle_count s) (m_frequency s) (m_average_frequency s) (m_total_time s)
    (m_checkpointed_cycle_count s) (m_enabled s) (m_current_ins_index s)
    (m_basic_block_queue s) (m_dynamic_info_queue s) (m_instruction_count s)
    (freed s ++ [o]).

(** ** Control flow: normal return, the two signalling exceptions, fatal assertions *)

Inductive Exn : Type :=
| AbortInstructionException
| DynamicInstructionInfoNotAvailableException.

(** A member function either returns, or throws with the state as it stands
    at the [throw], or fails a [LOG_ASSERT_ERROR] and ends the process. *)
Inductive Result (A : Type) : Type :=
| Normal (a : A) (s : CorePerfModel)
| Throw (e : Exn) (s : CorePerfModel)
| Fatal (msg : string).

Arguments Normal {A} a s.
Arguments Throw {A} e s.
Arguments Fatal {A} msg.

Definition M (A : Type) : Type := CorePerfModel -> Result A.

Definition ret {A} (a : A) : M A := fun s => Normal a s.

Definition bind {A B} (m : M A) (k : A -> M B) : M B :=
  fun s =>
    match m s with
    | Normal a s' => k a s'
    | Throw e s' => Throw e s'
    | Fatal msg => Fatal msg
    end.

Definition throw {A} (e : Exn) : M A := fun s => Throw e s.
Definition gets {A} (f : CorePerfModel -> A) : M A := fun s => Normal (f s) s.
Definition modify (f : CorePerfModel -> CorePerfModel) : M unit := fun s => Normal tt (f s).

(** Modelled from the spec: the macro [LOG_ASSERT_ERROR] of log.h, which is
    not part of the sources at hand. An assertion that fails is fatal: the
    process ends with the diagnostic. *)
Definition LOG_ASSERT_ERROR (cond : bool) (msg : string) : M unit :=
  fun s => if cond then Normal tt s else Fatal msg.

Declare Scope perf_scope.
Delimit Scope perf_scope with perf.
Notation "x <- m ;; k" := (bind m (fun x => k))
  (at level 61, m at next level, right associativity) : perf_scope.
Notation "m ;; k" := (bind m (fun _ => k))
  (at level 61, right associativity) : perf_scope.
Local Open Scope perf_scope.

(** ** core_perf_model.cc *)

(** The bound both assertions on the size of the dynamic-info queue use. *)
Definition DYNAMIC_INFO_QUEUE_CAP : Z := 5000.

(** [size()] of a queue. *)
Definition size {A} (q : list A) : Z := Z.of_nat (length q).

Section CorePerfModelOps.
Variable cfg : Config.

(** [CorePerfModel::CorePerfModel] *)
Definition construct (frequency : float) : CorePerfModel :=
  {| m_cycle_count := 0;
     m_frequency := frequency;
     m_average_frequency := Float32.zero;
     m_total_time := Float32.zero;
     m_checkpointed_cycle_count := 0;
     m_enabled := false;
     m_current_ins_index := 0%nat;
     m_basic_block_queue := [];
     m_dynamic_info_queue := [];
     m_instruction_count := 0;
     freed := [] |}.

Definition enable : M unit :=
  if getCurrentCoreID cfg =? getMCPCoreNum cfg
  then ret tt
  else modify (set_enabled true).

Definition disable : M unit := modify (set_enabled false).

Definition recomputeAverageFrequency : M unit :=
  modify (fun s =>
    let cycles_elapsed :=
      Float32.of_UInt64 (UInt64.sub (m_cycle_count s) (m_checkpointed_cycle_count s)) in
    let total_cycles_executed :=
      Float32.add (Float32.mul (m_average_frequency s) (m_total_time s)) cycles_elapsed in
    let total_time_taken :=
      Float32.add (m_total_time s) (Float32.div cycles_elapsed (m_frequency s)) in
    set_checkpointed_cycle_count (m_cycle_count s)
      (set_total_time total_time_taken
         (set_average_frequency (Float32.div total_cycles_executed total_time_taken) s))).

Definition updateInternalVariablesOnFrequencyChange (frequency : float) : M unit :=
  recomputeAverageFrequency ;;
  modify (set_frequency frequency).

Definition setCycleCount (cycle_count : Z) : M unit :=
  modify (set_checkpointed_cycle_count cycle_count) ;;
  modify (set_cycle_count cycle_count).

(** The guard all four queue operations start with. *)
Definition gated_off (s : CorePerfModel) : bool :=
  negb (m_enabled s) || negb (getEnablePerformanceModeling cfg).

Definition queueDynamicInstruction (i : Instruction) : M unit :=
  off <- gets gated_off ;;
  if off then modify (log_freed (FreedInstruction i))
  else
    let bb := mkBasicBlock true [i] in
    modify (fun s => set_basic_block_queue (m_basic_block_queue s ++ [bb]) s).

Definition queueBasicBlock (basic_block : BasicBlock) : M unit :=
  off <- gets gated_off ;;
  if off then ret tt
  else modify (fun s => set_basic_block_queue (m_basic_block_queue s ++ [basic_block]) s).

Definition pushDynamicInstructionInfo (i : DynamicInstructionInfo) : M unit :=
  off <- gets gated_off ;;
  if off then ret tt
  else modify (fun s => set_dynamic_info_queue (m_dynamic_info_queue s ++ [i]) s).

Definition popDynamicInstructionInfo : M unit :=
  off <- gets gated_off ;;
  if off then ret tt
  else
    q <- gets m_dynamic_info_queue ;;
    LOG_ASSERT_ERROR (0 <? size q) "Expected some dynamic info to be available."%string ;;
    LOG_ASSERT_ERROR (size q <? DYNAMIC_INFO_QUEUE_CAP)
                     "Dynamic info queue is growing too big."%string ;;
    modify (set_dynamic_info_queue (tl q)).

Definition getDynamicInstructionInfo : M DynamicInstructionInfo :=
  q <- gets m_dynamic_info_queue ;;
  match q with
  | [] => throw DynamicInstructionInfoNotAvailableException
  | front :: _ =>
      LOG_ASSERT_ERROR (size q <? DYNAMIC_INFO_QUEUE_CAP)
                       "Dynamic info queue is growing too big."%string ;;
      ret front
  end.

(** *** [CorePerfModel::iterate], over the virtual [handleInstruction] *)
Section Iterate.
Variable handleInstruction : Instruction -> M unit.

Definition advance_cursor (s : CorePerfModel) : CorePerfModel :=
  set_current_ins_index (S (m_current_ins_index s)) s.

(** The [for] loop over the instructions of the head block that are
    still to do, that is from the cursor on. An
    [AbortInstructionException] is caught inside the loop; the other
    exception leaves it. *)
Fixpoint for_loop (todo : list Instruction) : M unit :=
  match todo with
  | [] => ret tt
  | i :: todo' =>
      fun s =>
        match handleInstruction i s with
        | Normal _ s' => for_loop todo' (advance_cursor s')
        | Throw AbortInstructionException s' => for_loop todo' (advance_cursor s')
        | Throw DynamicInstructionInfoNotAvailableException s' =>
            Throw DynamicInstructionInfoNotAvailableException s'
        | Fatal msg => Fatal msg
        end
  end.

(** What follows the [for] loop in the [try] block. *)
Definition retire_block (current_bb : BasicBlock) : M unit :=
  (if isDynamic current_bb
   then modify (log_freed (FreedBasicBlock current_bb))
   else ret tt) ;;
  modify (fun s => set_basic_block_queue (tl (m_basic_block_queue s)) s) ;;
  modify (set_current_ins_index 0%nat).

(** The [while] loop; [queue] is the basic-block queue of the state,
    which only this loop shortens. *)
Fixpoint while_loop (queue : list BasicBlock) : M unit :=
  match queue with
  | current_bb :: ((_ :: _) as queue') =>
      fun s =>
        match (for_loop (skipn (m_current_ins_index s) (instructions current_bb)) ;;
               retire_block current_bb) s with
        | Normal _ s' => while_loop queue' s'
        | Throw DynamicInstructionInfoNotAvailableException s' => Normal tt s'
        | Throw AbortInstructionException s' => Throw AbortInstructionException s'
        | Fatal msg => Fatal msg
        end
  | _ => ret tt
  end.

Definition iterate : M unit :=
  fun s => while_loop (m_basic_block_queue s) s.
End Iterate.
End CorePerfModelOps.

(** ** magic_pep_performance_model.cc *)

Module MagicPep.
Definition isModeled (instruction_type : InstructionType) : bool :=
  match instruction_type with
  | INST_RECV | INST_SYNC | INST_SPAWN => true
  | _ => false
  end.

Section Handle.
Variable cfg : Config.

(** The body of the loop over the operands; [cost] is the local
    accumulator. *)
Definition handleOperand (o : Operand) (cost : Z) : M Z :=
  match m_type o with
  | MEMORY =>
      info <- getDynamicInstructionInfo ;;
      cost' <- match m_direction o with
               | READ =>
                   LOG_ASSERT_ERROR (DynamicInfoType_eqb (info_type info) MEMORY_READ)
                                    "Expected memory read info"%string ;;
                   ret (UInt64.add cost (memory_info_latency info))
               | WRITE =>
                   LOG_ASSERT_ERROR (DynamicInfoType_eqb (info_type info) MEMORY_WRITE)
                                    "Expected memory write info"%string ;;
                   ret (UInt64.add cost (memory_info_latency info))
               end ;;
      popDynamicInstructionInfo cfg ;;
      ret cost'
  | _ => ret cost
  end.

Fixpoint operand_loop (ops : OperandList) (cost : Z) : M Z :=
  match ops with
  | [] => ret cost
  | o :: ops' => cost' <- handleOperand o cost ;; operand_loop ops' cost'
  end.

Definition handleInstruction (instruction : Instruction) : M unit :=
  cost <- operand_loop (getOperands instruction) 0 ;;
  let instruction_cost := getCost instruction in
  let cost := if isModeled (getType instruction)
              then UInt64.add cost instruction_cost
              else UInt64.add cost 1 in
  modify (fun s => set_instruction_count (UInt64.add (m_instruction_count s) 1) s) ;;
  modify (fun s => set_cycle_count (UInt64.add (m_cycle_count s) cost) s).

Definition iterate : M unit := iterate handleInstruction.
End Handle.
End MagicPep.

(** ** Vocabulary of the statements *)

Definition is_memory (o : Operand) : bool :=
  match m_type o with MEMORY => true | _ => false end.

(** The memory operands of an instruction, in operand order. *)
Definition memory_operands (i : Instruction) : list Operand :=
  filter is_memory (getOperands i).

(** A fact matches an operand: a read fact for a read operand, a write fact
    for a write operand. *)
Definition operand_matches (o : Operand) (info : DynamicInstructionInfo) : bool :=
  match m_direction o with
  | READ => DynamicInfoType_eqb (info_type info) MEMORY_READ
  | WRITE => DynamicInfoType_eqb (info_type info) MEMORY_WRITE
  end.

Definition total_latency (infos : list DynamicInstructionInfo) : Z :=
  fold_right (fun info acc => memory_info_latency info + acc) 0 infos.

(** What an instruction costs apart from its memory operands. *)
Definition own_cost (i : Instruction) : Z :=
  if MagicPep.isModeled (getType i) then getCost i else 1.

Definition NotAvailable : Exn := DynamicInstructionInfoNotAvailableException.

(** The cost the loop has accumulated after the given facts. *)
Definition charged (infos : list DynamicInstructionInfo) (c : Z) : Z :=
  fold_left (fun c info => UInt64.add c (memory_info_latency info)) infos c.


Definition charge_instruction (cost : Z) (i : Instruction) (s : CorePerfModel)
  : CorePerfModel :=
  let cost := if MagicPep.isModeled (getType i)
              then UInt64.add cost (getCost i)
              else UInt64.add cost 1 in
  let s := set_instruction_count (UInt64.add (m_instruction_count s) 1) s in
  set_cycle_count (UInt64.add (m_cycle_count s) cost) s.


(** ** Concrete models for the examples *)

Module Example.
Definition cfg : Config :=
  {| getEnablePerformanceModeling := true;
     getMCPCoreNum := 0;
     getTotalCores := 6;
     getProcessCount := 3;
     getCoreListForProcess := fun p => [Z.of_nat (2 * p); Z.of_nat (2 * p + 1)];
     getCurrentCoreID := 1 |}.

Definition one : float := Float32.of_UInt64 1.
Definition two : float := Float32.of_UInt64 2.

Definition generic : Instruction := mkInstruction (INST_OTHER 0) [] 1.
Definition load : Instruction :=
  mkInstruction (INST_OTHER 0) [mkOperand MEMORY READ] 0.
Definition load_pair : Instruction :=
  mkInstruction (INST_OTHER 0) [mkOperand MEMORY READ; mkOperand MEMORY READ] 0.
Definition sync (cost : Z) : Instruction := mkInstruction INST_SYNC [] cost.

Definition sentinel : BasicBlock := mkBasicBlock false [].
Definition fact (latency : Z) : DynamicInstructionInfo := MemoryInfoRead 4096 latency.

(** Run a sequence of calls, each on the state the one before returned. *)
Fixpoint calls (ms : list (M unit)) : M unit :=
  match ms with
  | [] => ret tt
  | m :: ms' => m ;; calls ms'
  end.

(** An enabled model with one fact queued. *)
Definition enabled_model : CorePerfModel :=
  set_dynamic_info_queue [fact 5] (set_enabled true (construct one)).
End Example.


(** ** What [iterate] expects of a concrete model

    [handleInstruction] is the hook a concrete model fills in. The cursor
    and the basic-block queue belong to [iterate]; a handler leaves them
    alone, as the one of the magic PEP model does. *)
Definition handler_frame (handleInstruction : Instruction -> M unit) : Prop :=
  forall i s,
    match handleInstruction i s with
    | Normal _ s' | Throw _ s' =>
        m_basic_block_queue s' = m_basic_block_queue s /\
        m_current_ins_index s' = m_current_ins_index s
    | Fatal _ => True
    end.

Module Scenario.
Import Example.

(** An enabled model whose queue holds the block [generic; load; generic]
    and a sentinel, with no fact queued. *)
Definition block : BasicBlock := mkBasicBlock false [generic; load; generic].

Definition queued : CorePerfModel :=
  set_basic_block_queue [block; sentinel] (set_enabled true (construct one)).

(** The same model with the cursor on the load. *)
Definition at_load : CorePerfModel :=
  set_cycle_count 1 (set_instruction_count 1 (set_current_ins_index 1%nat queued)).

(** A block whose one instruction has two memory operands. *)
Definition pair_block : BasicBlock := mkBasicBlock false [load_pair].

Definition pair_queued : CorePerfModel :=
  set_basic_block_queue [pair_block; sentinel] (set_enabled true (construct one)).
End Scenario.

(** ** Sequences of calls on a model *)

Inductive Call : Type :=
| CallEnable
| CallDisable
| CallQueueDynamicInstruction (i : Instruction)
| CallQueueBasicBlock (basic_block : BasicBlock)
| CallPushDynamicInstructionInfo (info : DynamicInstructionInfo)
| CallPopDynamicInstructionInfo
| CallIterate
| CallSetCycleCount (cycle_count : Z)
| CallUpdateInternalVariablesOnFrequencyChange (frequency : float)
| CallRecomputeAverageFrequency.

Definition call (cfg : Config) (handleInstruction : Instruction -> M unit) (c : Call)
  : M unit :=
  match c with
  | CallEnable => enable cfg
  | CallDisable => disable
  | CallQueueDynamicInstruction i => queueDynamicInstruction cfg i
  | CallQueueBasicBlock basic_block => queueBasicBlock cfg basic_block
  | CallPushDynamicInstructionInfo info => pushDynamicInstructionInfo cfg info
  | CallPopDynamicInstructionInfo => popDynamicInstructionInfo cfg
  | CallIterate => iterate handleInstruction
  | CallSetCycleCount cycle_count => setCycleCount cycle_count
  | CallUpdateInternalVariablesOnFrequencyChange frequency =>
      updateInternalVariablesOnFrequencyChange frequency
  | CallRecomputeAverageFrequency => recomputeAverageFrequency
  end.

Fixpoint run_calls (cfg : Config) (handleInstruction : Instruction -> M unit)
    (cs : list Call) : M unit :=
  match cs with
  | [] => ret tt
  | c :: cs' => call cfg handleInstruction c ;; run_calls cfg handleInstruction cs'
  end.

(** A call that cannot set [enabled]: any call but [enable()], and
    [enable()] itself on the MCP's own core. *)
Definition leaves_disabled (cfg : Config) (c : Call) : bool :=
  match c with
  | CallEnable => getCurrentCoreID cfg =? getMCPCoreNum cfg
  | _ => true
  end.

Definition queues_empty (s : CorePerfModel) : Prop :=
  m_basic_block_queue s = [] /\ m_dynamic_info_queue s = [].

Module Unconfigured.
(** Performance modeling configured off. *)
Definition cfg : Config :=
  {| getEnablePerformanceModeling := false;
     getMCPCoreNum := 0;
     getTotalCores := 6;
     getProcessCount := 3;
     getCoreListForProcess := fun p => [Z.of_nat (2 * p); Z.of_nat (2 * p + 1)];
     getCurrentCoreID := 1 |}.

(** An enabled model with nothing queued. *)
Definition enabled_model : CorePerfModel := set_enabled true (construct Example.one).
End Unconfigured.

Module Flood.
(** An enabled model whose fact queue holds as many entries as the cap. *)
Definition facts : list DynamicInstructionInfo :=
  repeat (Example.fact 5) (Z.to_nat DYNAMIC_INFO_QUEUE_CAP).

Definition full_model : CorePerfModel :=
  set_dynamic_info_queue facts (set_enabled true (construct Example.one)).
End Flood.

(** ** Packets *)

Definition Bytes : Type := list byte.

(** The [n] bytes at byte offset [off] of a buffer; there are none when the
    buffer ends before them, and the read is undefined. *)
Definition bytes_at (buf : Bytes) (off n : nat) : option Bytes :=
  let bs := firstn n (skipn off buf) in
  if (length bs =? n)%nat then Some bs else None.

Definition signed32 (z : Z) : Z := if z <? 2 ^ 31 then z else z - 2 ^ 32.

(** [*(UInt32* )(buf + off)], [*(SInt32* )(buf + off)] and
    [*(UInt64* )(buf + off)] on a little-endian host. *)
Definition load_UInt32 (buf : Bytes) (off : nat) : option Z :=
  option_map le_combine (bytes_at buf off 4).

Definition load_SInt32 (buf : Bytes) (off : nat) : option Z :=
  option_map signed32 (load_UInt32 buf off).

Definition load_UInt64 (buf : Bytes) (off : nat) : option Z :=
  option_map le_combine (bytes_at buf off 8).

Definition sizeof_SInt32 : nat := 4.
Definition sizeof_UInt64 : nat := 8.

(** [p + n] for a pointer [p] to elements of [elem_size] bytes: pointer
    arithmetic counts in elements. *)
Definition ptr_add (elem_size : nat) (p : nat) (n : nat) : nat := (p + n * elem_size)%nat.

(** ** lcp.cc *)

Module LCP.
(** The message types the switch of [processPacket] names; message_types.h,
    which gives them their values, is not part of the sources at hand. *)
Inductive MessageType : Type :=
| LCP_MESSAGE_QUIT
| LCP_MESSAGE_COMMID_UPDATE
| LCP_MESSAGE_SIMULATOR_FINISHED
| LCP_MESSAGE_SIMULATOR_FINISHED_ACK
| LCP_MESSAGE_THREAD_SPAWN_REQUEST_FROM_REQUESTER
| LCP_MESSAGE_THREAD_SPAWN_REQUEST_FROM_MASTER
| LCP_MESSAGE_THREAD_SPAWN_REPLY_FROM_SLAVE
| LCP_MESSAGE_THREAD_EXIT
| LCP_MESSAGE_THREAD_JOIN_REQUEST.

(** What [processPacket] calls on the simulator, the thread manager and the
    configuration, in order. *)
Inductive Event : Type :=
| updateCommToCoreMap (comm_id core_id : Z)
| handleFinish
| deallocateProcess
| masterSpawnThread (req : Bytes)
| slaveSpawnThread (req : Bytes)
| masterSpawnThreadReply (req : Bytes)
| masterOnThreadExit (thread_id cycle_count : Z)
| masterJoinThread (req : Bytes)
| deleted (pkt : Bytes).

Record State : Type := mkState {
  m_finished : bool;
  events : list Event
}.

Inductive Outcome : Type :=
| Returned (s : State)
| FatalError (msg : string)
| Undefined.                 (* a read past the end of the packet *)

Definition emit (e : Event) (s : State) : State :=
  mkState (m_finished s) (events s ++ [e]).

Section ProcessPacket.
(** The enumerator an integer stands for, if any. *)
Variable message_type : Z -> option MessageType.

(** [updateCommId]: a [CommMapUpdate] is two 32-bit integers. *)
Definition updateCommId (buf : Bytes) (vp : nat) (s : State) : Outcome :=
  match load_SInt32 buf vp, load_SInt32 buf (vp + sizeof_SInt32) with
  | Some comm_id, Some core_id => Returned (emit (updateCommToCoreMap comm_id core_id) s)
  | _, _ => Undefined
  end.

(** [processPacket], on the packet [m_transport->recv()] returns. *)
Definition processPacket (pkt : Bytes) (s : State) : Outcome :=
  match load_SInt32 pkt 0 with
  | None => Undefined
  | Some msg_type =>
      let data := (0 + sizeof_SInt32)%nat in
      let dispatched :=
        match message_type msg_type with
        | Some LCP_MESSAGE_QUIT => Returned (mkState true (events s))
        | Some LCP_MESSAGE_COMMID_UPDATE => updateCommId pkt data s
        | Some LCP_MESSAGE_SIMULATOR_FINISHED => Returned (emit handleFinish s)
        | Some LCP_MESSAGE_SIMULATOR_FINISHED_ACK => Returned (emit deallocateProcess s)
        | Some LCP_MESSAGE_THREAD_SPAWN_REQUEST_FROM_REQUESTER =>
            Returned (emit (masterSpawnThread pkt) s)
        | Some LCP_MESSAGE_THREAD_SPAWN_REQUEST_FROM_MASTER =>
            Returned (emit (slaveSpawnThread pkt) s)
        | Some LCP_MESSAGE_THREAD_SPAWN_REPLY_FROM_SLAVE =>
            Returned (emit (masterSpawnThreadReply pkt) s)
        | Some LCP_MESSAGE_THREAD_EXIT =>
            (* masterOnThreadExit( *((SInt32* )data), *((UInt64* )data+4)):
               the cast binds tighter than the sum *)
            match load_SInt32 pkt data,
                  load_UInt64 pkt (ptr_add sizeof_UInt64 data 4) with
            | Some thread_id, Some cycle_count =>
                Returned (emit (masterOnThreadExit thread_id cycle_count) s)
            | _, _ => Undefined
            end
        | Some LCP_MESSAGE_THREAD_JOIN_REQUEST =>
            Returned (emit (masterJoinThread pkt) s)
        | None => FatalError "Unexpected message type"%string
        end in
      match dispatched with
      | Returned s' => Returned (emit (deleted pkt) s')
      | other => other
      end
  end.
End ProcessPacket.

(** The payload the specification gives a THREAD_EXIT packet: the tag, then
    [thread_id] in the next 32-bit word, then [cycle_count] in the 64-bit
    word after it. *)
Definition thread_exit_packet (tag thread_id cycle_count : Z) : Bytes :=
  le_split 4 tag ++ le_split 4 thread_id ++ le_split 8 cycle_count.

(** Values for the enumerators, in the order of the switch. *)
Definition example_message_type (z : Z) : option MessageType :=
  match z with
  | 0 => Some LCP_MESSAGE_QUIT
  | 1 => Some LCP_MESSAGE_COMMID_UPDATE
  | 2 => Some LCP_MESSAGE_SIMULATOR_FINISHED
  | 3 => Some LCP_MESSAGE_SIMULATOR_FINISHED_ACK
  | 4 => Some LCP_MESSAGE_THREAD_SPAWN_REQUEST_FROM_REQUESTER
  | 5 => Some LCP_MESSAGE_THREAD_SPAWN_REQUEST_FROM_MASTER
  | 6 => Some LCP_MESSAGE_THREAD_SPAWN_REPLY_FROM_SLAVE
  | 7 => Some LCP_MESSAGE_THREAD_EXIT
  | 8 => Some LCP_MESSAGE_THREAD_JOIN_REQUEST
  | _ => None
  end.

Definition idle : State := mkState false [].
End LCP.

(** ** mcp.cc *)

Module MCP.
(** The packet types mcp.cc names; packet_type.h has more. *)
Inductive PacketType : Type :=
| MCP_REQUEST_TYPE
| MCP_SYSTEM_TYPE
| MCP_RESPONSE_TYPE
| SIM_THREAD_UPDATE_COMM_MAP
| OTHER_PACKET_TYPE (tag : nat).

Definition PacketType_eqb (a b : PacketType) : bool :=
  match a, b with
  | MCP_REQUEST_TYPE, MCP_REQUEST_TYPE
  | MCP_SYSTEM_TYPE, MCP_SYSTEM_TYPE
  | MCP_RESPONSE_TYPE, MCP_RESPONSE_TYPE
  | SIM_THREAD_UPDATE_COMM_MAP, SIM_THREAD_UPDATE_COMM_MAP => true
  | OTHER_PACKET_TYPE m, OTHER_PACKET_TYPE n => Nat.eqb m n
  | _, _ => false
  end.

Record NetPacket : Type := mkNetPacket {
  type : PacketType;
  sender : Z;
  receiver : Z;
  data : Bytes              (* [length] is the length of [data] *)
}.

Definition set_type (t : PacketType) (pkt : NetPacket) : NetPacket :=
  mkNetPacket t (sender pkt) (receiver pkt) (data pkt).
Definition set_sender (c : Z) (pkt : NetPacket) : NetPacket :=
  mkNetPacket (type pkt) c (receiver pkt) (data pkt).
Definition set_receiver (c : Z) (pkt : NetPacket) : NetPacket :=
  mkNetPacket (type pkt) (sender pkt) c (data pkt).

Record NetMatch : Type := mkNetMatch { types : list PacketType }.

(** What the MCP does on the network and on the buffers it owns, in order. *)
Inductive Event : Type :=
| Sent (pkt : NetPacket)
| Received (pkt : NetPacket)
| Deleted (buf : Bytes)
| Served (msg_type : Z) (sender : Z).      (* a call into one of the servers *)

(** The network as the MCP sees it: the packets on their way to it, oldest
    first, and what it has done so far. *)
Record Network : Type := mkNetwork {
  inbound : list NetPacket;
  trace : list Event
}.

Definition log (e : Event) (net : Network) : Network :=
  mkNetwork (inbound net) (trace net ++ [e]).

Inductive Outcome (A : Type) : Type :=
| Done (a : A) (net : Network)
| Blocked (net : Network)        (* [netRecv] never returns *)
| FatalError (msg : string)
| Undefined.                     (* a read past the end of a vector or buffer *)

Arguments Done {A} a net.
Arguments Blocked {A} net.
Arguments FatalError {A} msg.
Arguments Undefined {A}.

Definition matches (m : NetMatch) (pkt : NetPacket) : bool :=
  existsb (PacketType_eqb (type pkt)) (types m).

(** Modelled from the spec: [Network::netSend], of network.cc, which is not
    part of the sources at hand. The packet leaves; nothing comes back from
    the call. *)
Definition netSend (pkt : NetPacket) (net : Network) : Outcome unit :=
  Done tt (log (Sent pkt) net).

(** The oldest packet that matches, and the others in their order. *)
Fixpoint take_matching (m : NetMatch) (q : list NetPacket)
  : option (NetPacket * list NetPacket) :=
  match q with
  | [] => None
  | pkt :: q' =>
      if matches m pkt then Some (pkt, q')
      else match take_matching m q' with
           | Some (found, rest) => Some (found, pkt :: rest)
           | None => None
           end
  end.

(** Modelled from the spec: [Network::netRecv], of network.cc, which is not
    part of the sources at hand. The call blocks until a packet of one of
    the types of [match] is there and returns the oldest such packet. *)
Definition netRecv (m : NetMatch) (net : Network) : Outcome NetPacket :=
  match take_matching m (inbound net) with
  | Some (pkt, rest) => Done pkt (mkNetwork rest (trace net ++ [Received pkt]))
  | None => Blocked net
  end.

Definition bind {A B} (m : Network -> Outcome A) (k : A -> Network -> Outcome B)
  : Network -> Outcome B :=
  fun net =>
    match m net with
    | Done a net' => k a net'
    | Blocked net' => Blocked net'
    | FatalError msg => FatalError msg
    | Undefined => Undefined
    end.

Definition delete (buf : Bytes) (net : Network) : Outcome unit :=
  Done tt (log (Deleted buf) net).

Section Broadcast.
Variable g_config : Config.

(** [broadcastPacket] *)
Fixpoint broadcast_cores (core_ids : list nat) (pkt : NetPacket)
  : Network -> Outcome unit :=
  match core_ids with
  | [] => fun net => Done tt net
  | core_id :: core_ids' =>
      bind (netSend (set_receiver (Z.of_nat core_id) pkt))
           (fun _ => broadcast_cores core_ids' (set_receiver (Z.of_nat core_id) pkt))
  end.

Definition broadcastPacket (pkt : NetPacket) : Network -> Outcome unit :=
  let pkt := set_sender (getMCPCoreNum g_config) pkt in
  broadcast_cores (seq 0 (getTotalCores g_config)) pkt.

(** The body of the loop of [broadcastPacketToProcesses] for one process. *)
Definition broadcast_to_process (proc_id : nat) (pkt : NetPacket)
  : Network -> Outcome NetPacket :=
  match getCoreListForProcess g_config proc_id with
  | [] => fun _ => Undefined
  | first_core :: _ =>
      let pkt := set_receiver first_core pkt in
      bind (netSend pkt) (fun _ =>
      bind (netRecv (mkNetMatch [MCP_RESPONSE_TYPE])) (fun recv_pkt =>
      bind (delete (data recv_pkt)) (fun _ net =>
      Done pkt net)))
  end.

Fixpoint broadcast_processes (proc_ids : list nat) (pkt : NetPacket)
  : Network -> Outcome unit :=
  match proc_ids with
  | [] => fun net => Done tt net
  | proc_id :: proc_ids' =>
      bind (broadcast_to_process proc_id pkt) (fun pkt' =>
      broadcast_processes proc_ids' pkt')
  end.

Definition broadcastPacketToProcesses (pkt : NetPacket) : Network -> Outcome unit :=
  let pkt := set_sender (getMCPCoreNum g_config) pkt in
  broadcast_processes (seq 0 (getProcessCount g_config)) pkt.

(** The message types of the switch in [run]; message_types.h, which gives
    them their values, is not part of the sources at hand. *)
Inductive MessageType : Type :=
| MCP_MESSAGE_SYS_CALL
| MCP_MESSAGE_QUIT
| MCP_MESSAGE_MUTEX_INIT
| MCP_MESSAGE_MUTEX_LOCK
| MCP_MESSAGE_MUTEX_UNLOCK
| MCP_MESSAGE_COND_INIT
| MCP_MESSAGE_COND_WAIT
| MCP_MESSAGE_COND_SIGNAL
| MCP_MESSAGE_COND_BROADCAST
| MCP_MESSAGE_BARRIER_INIT
| MCP_MESSAGE_BARRIER_WAIT
| MCP_MESSAGE_UTILIZATION_UPDATE
| MCP_MESSAGE_BROADCAST_COMM_MAP_UPDATE.

(** The enumerator an integer stands for, if any. *)
Variable message_type : Z -> option MessageType.

(** The servers are not part of the sources at hand; a call into one of
    them is recorded and has no other effect here. *)
Definition serve (msg_type : Z) (from : Z) (net : Network) : Outcome unit :=
  Done tt (log (Served msg_type from) net).

(** [run]: one turn of the loop of the MCP, from and to [m_finished]. *)
Definition run (m_finished : bool) : Network -> Outcome bool :=
  bind (netRecv (mkNetMatch [MCP_REQUEST_TYPE; MCP_SYSTEM_TYPE])) (fun recv_pkt =>
  match load_SInt32 (data recv_pkt) 0 with
  | None => fun _ => Undefined
  | Some msg_type =>
      bind
        (match message_type msg_type with
         | Some MCP_MESSAGE_QUIT => fun net => Done true net
         | Some MCP_MESSAGE_BROADCAST_COMM_MAP_UPDATE =>
             let recv_pkt := set_type SIM_THREAD_UPDATE_COMM_MAP recv_pkt in
             bind (broadcastPacketToProcesses recv_pkt) (fun _ net => Done m_finished net)
         | Some _ =>
             bind (serve msg_type (sender recv_pkt)) (fun _ net => Done m_finished net)
         | None => fun _ => FatalError "Unhandled MCP message type"%string
         end)
        (fun finished =>
           bind (delete (data recv_pkt)) (fun _ net => Done finished net))
  end).
End Broadcast.

(** ** Vocabulary of the statements *)

Definition response_match : NetMatch := mkNetMatch [MCP_RESPONSE_TYPE].

Definition is_response (pkt : NetPacket) : bool := matches response_match pkt.

(** The first core of a process. *)
Definition first_core (g_config : Config) (proc_id : nat) : option Z :=
  nth_error (getCoreListForProcess g_config proc_id) 0.

(** What the broadcast of [pkt] to one process leaves in the trace: the
    send to the first core of the process, the response, its release. *)
Definition round (g_config : Config) (pkt : NetPacket) (proc_id : nat)
    (response : NetPacket) : list Event :=
  match first_core g_config proc_id with
  | Some c => [Sent (set_receiver c pkt); Received response; Deleted (data response)]
  | None => []
  end.

Fixpoint rounds (g_config : Config) (pkt : NetPacket) (proc_ids : list nat)
    (responses : list NetPacket) : list Event :=
  match proc_ids, responses with
  | proc_id :: proc_ids', response :: responses' =>
      round g_config pkt proc_id response ++ rounds g_config pkt proc_ids' responses'
  | _, _ => []
  end.

Definition is_send (e : Event) : bool :=
  match e with Sent _ => true | _ => false end.

Definition is_receive (e : Event) : bool :=
  match e with Received _ => true | _ => false end.

Definition response (from : Z) : NetPacket := mkNetPacket MCP_RESPONSE_TYPE from 0 [].

(** A communicator update and three responses on their way to the MCP. *)
Definition update_network : Network :=
  mkNetwork
    [response 0; mkNetPacket MCP_REQUEST_TYPE 5 0 (le_split 4 12); response 2; response 4]
    [].

(** Three responses on their way to the MCP, with a request between them. *)
Definition example_network : Network :=
  mkNetwork [response 0; mkNetPacket MCP_REQUEST_TYPE 5 0 []; response 2; response 4] [].

(** A communicator update as core 5 sends it to the MCP. *)
Definition update : NetPacket := mkNetPacket MCP_REQUEST_TYPE 5 0 (le_split 4 12).

Definition example_message_type (z : Z) : option MessageType :=
  match z with
  | 0 => Some MCP_MESSAGE_SYS_CALL
  | 1 => Some MCP_MESSAGE_QUIT
  | 12 => Some MCP_MESSAGE_BROADCAST_COMM_MAP_UPDATE
  | _ => None
  end.
End MCP.

From Stdlib Require Import Sorting.Permutation.

(** * Further vocabulary *)

(** The instructions of a run of blocks, and their memory operands, in the
    order [iterate] meets them. *)
Definition block_instructions (blocks : list BasicBlock) : list Instruction :=
  flat_map instructions blocks.

Definition instructions_operands (todo : list Instruction) : list Operand :=
  flat_map memory_operands todo.

Definition total_own_cost (todo : list Instruction) : Z :=
  fold_right (fun i acc => own_cost i + acc) 0 todo.

(** The blocks [iterate] deletes when it retires the given ones. *)
Definition deleted_blocks (blocks : list BasicBlock) : list Freed :=
  map FreedBasicBlock (filter isDynamic blocks).

(** A handler that gives up on every instruction. *)
Definition aborting_handler : Instruction -> M unit :=
  fun _ => throw AbortInstructionException.

(** A handler that never stalls and never fails an assertion. *)
Definition never_stalls (handleInstruction : Instruction -> M unit) : Prop :=
  forall i s,
    match handleInstruction i s with
    | Normal _ _ | Throw AbortInstructionException _ => True
    | Throw DynamicInstructionInfoNotAvailableException _ | Fatal _ => False
    end.

Definition is_nan (f : float) : bool :=
  match f with S754_nan => true | _ => false end.

Definition is_zero (f : float) : bool :=
  match f with S754_zero _ => true | _ => false end.

Module Drain.
Import Example.

(** An enabled model with a static block, a dynamic block and a last block
    queued, and four facts, one more than the two blocks need. *)
Definition blocks : list BasicBlock :=
  [mkBasicBlock false [generic; load; sync 3]; mkBasicBlock true [load_pair]].

Definition facts : list DynamicInstructionInfo := [fact 5; fact 7; fact 9].

Definition ready : CorePerfModel :=
  set_dynamic_info_queue (facts ++ [fact 1])
    (set_basic_block_queue (blocks ++ [sentinel])
       (set_enabled true (construct one))).
End Drain.

(** ** The loop of the LCP *)

Module LCPRun.
(** The enumerator the tag of a packet stands for, if the packet has a tag
    and the tag stands for one. *)
Definition message_of (message_type : Z -> option LCP.MessageType) (pkt : Bytes)
  : option LCP.MessageType :=
  match load_SInt32 pkt 0 with
  | Some msg_type => message_type msg_type
  | None => None
  end.

Definition is_quit (message_type : Z -> option LCP.MessageType) (pkt : Bytes) : bool :=
  match message_of message_type pkt with
  | Some LCP.LCP_MESSAGE_QUIT => true
  | _ => false
  end.

(** The buffers released so far, oldest first. *)
Definition released (events : list LCP.Event) : list Bytes :=
  flat_map (fun e => match e with LCP.deleted pkt => [pkt] | _ => [] end) events.

(** The calls made so far, oldest first. *)
Definition calls (events : list LCP.Event) : list LCP.Event :=
  filter (fun e => match e with LCP.deleted _ => false | _ => true end) events.

Inductive Outcome : Type :=
| Stopped (s : LCP.State) (unread : list Bytes)    (* [m_finished] has been seen *)
| Waiting (s : LCP.State)                          (* blocked in [recv()] *)
| FatalError (msg : string)
| Undefined.

(** [run]: [while (!m_finished) processPacket();]. The transport is not
    part of the sources at hand; what [m_transport->recv()] returns, call
    after call, is the parameter [incoming], and the call blocks when there
    is no packet left. *)
Fixpoint run (message_type : Z -> option LCP.MessageType) (incoming : list Bytes)
    (s : LCP.State) {struct incoming} : Outcome :=
  if LCP.m_finished s then Stopped s incoming
  else
    match incoming with
    | [] => Waiting s
    | pkt :: incoming' =>
        match LCP.processPacket message_type pkt s with
        | LCP.Returned s' => run message_type incoming' s'
        | LCP.FatalError msg => FatalError msg
        | LCP.Undefined => Undefined
        end
    end.

(** What [finish] hands to [globalSend]: the [sizeof(msg_type)] bytes of
    [msg_type = LCP_MESSAGE_QUIT], addressed to the LCP of this process. *)
Definition finish_packet (quit : Z) : Bytes := le_split sizeof_SInt32 quit.

(** A COMMID_UPDATE packet: the tag and a [CommMapUpdate]. *)
Definition commid_update_packet (tag comm_id core_id : Z) : Bytes :=
  le_split 4 tag ++ le_split 4 comm_id ++ le_split 4 core_id.

Definition in_SInt32 (z : Z) : Prop := - 2 ^ 31 <= z < 2 ^ 31.
End LCPRun.

Module LCPExample.
Import LCPRun.

(** A communicator update, the packet of [finish] and a join request, as
    they arrive. *)
Definition incoming : list Bytes :=
  [ commid_update_packet 1 3 (-1); finish_packet 0; le_split 4 8 ++ le_split 8 0 ].
End LCPExample.

(** ** The MCP, further *)

Module MCPRun.
(** The buffers of the packets received, and the buffers released, oldest
    first. *)
Definition received_buffers (events : list MCP.Event) : list Bytes :=
  flat_map (fun e => match e with MCP.Received pkt => [MCP.data pkt] | _ => [] end) events.

Definition deleted_buffers (events : list MCP.Event) : list Bytes :=
  flat_map (fun e => match e with MCP.Deleted buf => [buf] | _ => [] end) events.

Definition is_quit (m : option MCP.MessageType) : bool :=
  match m with Some MCP.MCP_MESSAGE_QUIT => true | _ => false end.

Definition request_match : MCP.NetMatch :=
  MCP.mkNetMatch [MCP.MCP_REQUEST_TYPE; MCP.MCP_SYSTEM_TYPE].

(** What [finish] sends: [sizeof(msg_type)] bytes that hold
    [msg_type = MCP_MESSAGE_QUIT], of type MCP_SYSTEM_TYPE, to the MCP core,
    from the core [self] that [m_network] belongs to. *)
Definition finish_packet (g_config : Config) (self : Z) (quit : Z) : MCP.NetPacket :=
  MCP.mkNetPacket MCP.MCP_SYSTEM_TYPE self (getMCPCoreNum g_config)
    (le_split sizeof_SInt32 quit).

(** A packet [run] would take. *)
Definition is_request (pkt : MCP.NetPacket) : bool := MCP.matches request_match pkt.
End MCPRun.
(** ** Basic facts *)

Lemma set_dynamic_info_queue_same s :
  set_dynamic_info_queue (m_dynamic_info_queue s) s = s.
Proof. destruct s; reflexivity. Qed.

Lemma set_dynamic_info_queue_twice q q' s :
  set_dynamic_info_queue q (set_dynamic_info_queue q' s) = set_dynamic_info_queue q s.
Proof. reflexivity. Qed.

Lemma gated_off_set_dynamic_info_queue cfg q s :
  gated_off cfg (set_dynamic_info_queue q s) = gated_off cfg s.
Proof. reflexivity. Qed.

Lemma wrap_add_l a b : UInt64.wrap (UInt64.wrap a + b) = UInt64.wrap (a + b).
Proof. unfold UInt64.wrap. apply Zplus_mod_idemp_l. Qed.

Lemma wrap_add_r a b : UInt64.wrap (a + UInt64.wrap b) = UInt64.wrap (a + b).
Proof. unfold UInt64.wrap. apply Zplus_mod_idemp_r. Qed.

Lemma wrap_small z : UInt64.in_range z -> UInt64.wrap z = z.
Proof. unfold UInt64.in_range, UInt64.wrap. intros H. apply Z.mod_small. exact H. Qed.

Lemma size_nil {A} : size (@nil A) = 0.
Proof. reflexivity. Qed.

Lemma size_cons {A} (x : A) q : size (x :: q) = size q + 1.
Proof. unfold size. simpl length. lia. Qed.

Lemma size_app {A} (q q' : list A) : size (q ++ q') = size q + size q'.
Proof. unfold size. rewrite length_app. lia. Qed.

Lemma size_nonneg {A} (q : list A) : 0 <= size q.
Proof. unfold size. lia. Qed.

Lemma skipn_nth_error {A} (l : list A) n x :
  nth_error l n = Some x -> skipn n l = x :: skipn (S n) l.
Proof.
  revert n. induction l as [|y l IH]; intros [|n] H; simpl in *; try discriminate.
  - congruence.
  - apply IH. exact H.
Qed.

(** ** The operand loop of the magic PEP model *)

Section MagicPepFacts.
Variable cfg : Config.

Ltac run_monad := cbv [bind gets modify ret throw LOG_ASSERT_ERROR].
Ltac step_monad :=
  unfold bind, gets, modify, ret, throw, LOG_ASSERT_ERROR in *; simpl in *.

Lemma handleOperand_not_memory o c s :
  is_memory o = false -> MagicPep.handleOperand cfg o c s = Normal c s.
Proof.
  unfold is_memory, MagicPep.handleOperand. destruct (m_type o); intros H;
    try discriminate; reflexivity.
Qed.

Lemma handleOperand_empty o c s :
  is_memory o = true -> m_dynamic_info_queue s = [] ->
  MagicPep.handleOperand cfg o c s = Throw NotAvailable s.
Proof.
  unfold is_memory, MagicPep.handleOperand, getDynamicInstructionInfo.
  destruct (m_type o); intros H Hq; try discriminate.
  step_monad. rewrite Hq. reflexivity.
Qed.

Lemma handleOperand_front o c s front q :
  is_memory o = true ->
  m_dynamic_info_queue s = front :: q ->
  size (m_dynamic_info_queue s) < DYNAMIC_INFO_QUEUE_CAP ->
  operand_matches o front = true ->
  MagicPep.handleOperand cfg o c s =
    Normal (UInt64.add c (memory_info_latency front))
           (if gated_off cfg s then s else set_dynamic_info_queue q s).
Proof.
  unfold is_memory, operand_matches, MagicPep.handleOperand,
    getDynamicInstructionInfo, popDynamicInstructionInfo.
  destruct (m_type o); intros H Hq Hcap Hm; try discriminate.
  assert (Hpos : (0 <? size (front :: q)) = true).
  { apply Z.ltb_lt. rewrite size_cons. pose proof (size_nonneg q). lia. }
  rewrite Hq in Hcap. apply Z.ltb_lt in Hcap.
  run_monad. rewrite Hq. run_monad. rewrite Hcap.
  destruct (m_direction o); rewrite Hm; destruct (gated_off cfg s);
    try reflexivity; rewrite Hq, Hpos, Hcap; reflexivity.
Qed.

Lemma handleOperand_normal_inv o c s c' s' :
  MagicPep.handleOperand cfg o c s = Normal c' s' ->
  (is_memory o = false /\ c' = c /\ s' = s) \/
  (is_memory o = true /\
   exists front q,
     m_dynamic_info_queue s = front :: q /\
     size (m_dynamic_info_queue s) < DYNAMIC_INFO_QUEUE_CAP /\
     operand_matches o front = true /\
     c' = UInt64.add c (memory_info_latency front) /\
     s' = if gated_off cfg s then s else set_dynamic_info_queue q s).
Proof.
  intros H. destruct (is_memory o) eqn:Hmem.
  - right. split; [reflexivity|].
    destruct (m_dynamic_info_queue s) as [|front q] eqn:Hq.
    + rewrite (handleOperand_empty _ _ _ Hmem Hq) in H. discriminate.
    + exists front, q. split; [reflexivity|].
      destruct (Z.ltb_spec (size (front :: q)) DYNAMIC_INFO_QUEUE_CAP) as [Hcap|Hcap].
      * destruct (operand_matches o front) eqn:Hm.
        -- rewrite <- Hq in Hcap.
           rewrite (handleOperand_front _ c _ _ _ Hmem Hq Hcap Hm) in H.
           inversion H; subst. rewrite Hq in Hcap. auto.
        -- exfalso. revert H Hmem Hm.
           unfold is_memory, operand_matches, MagicPep.handleOperand,
             getDynamicInstructionInfo.
           destruct (m_type o); try discriminate.
           apply Z.ltb_lt in Hcap. step_monad. rewrite Hq, Hcap.
           destruct (m_direction o); simpl; intros H _ Hm; rewrite Hm in H;
             discriminate.
      * exfalso. revert H Hmem.
        unfold is_memory, MagicPep.handleOperand, getDynamicInstructionInfo.
        destruct (m_type o); try discriminate.
        apply Z.ltb_ge in Hcap. step_monad. rewrite Hq, Hcap. discriminate.
  - left. rewrite (handleOperand_not_memory _ _ _ Hmem) in H.
    inversion H; auto.
Qed.

Lemma handleOperand_throw_inv o c s e s' :
  MagicPep.handleOperand cfg o c s = Throw e s' ->
  e = NotAvailable /\ s' = s /\ m_dynamic_info_queue s = [] /\ is_memory o = true.
Proof.
  intros H. destruct (is_memory o) eqn:Hmem.
  - destruct (m_dynamic_info_queue s) as [|front q] eqn:Hq.
    + rewrite (handleOperand_empty _ _ _ Hmem Hq) in H. inversion H; auto.
    + exfalso. revert H Hmem.
      unfold is_memory, MagicPep.handleOperand, getDynamicInstructionInfo,
        popDynamicInstructionInfo.
      destruct (m_type o); try discriminate.
      step_monad. rewrite Hq.
      destruct (size (front :: q) <? DYNAMIC_INFO_QUEUE_CAP); try discriminate.
      destruct (m_direction o); simpl;
        match goal with |- context [DynamicInfoType_eqb ?a ?b] =>
          destruct (DynamicInfoType_eqb a b) end; try discriminate;
        destruct (gated_off cfg s); try discriminate; rewrite Hq;
        destruct (0 <? size (front :: q)); try discriminate;
        destruct (size (front :: q) <? DYNAMIC_INFO_QUEUE_CAP); discriminate.
  - rewrite (handleOperand_not_memory _ _ _ Hmem) in H. discriminate.
Qed.
End MagicPepFacts.

Section MagicPepLoop.
Variable cfg : Config.

Lemma operand_loop_cons o ops c s :
  MagicPep.operand_loop cfg (o :: ops) c s =
    match MagicPep.handleOperand cfg o c s with
    | Normal c' s' => MagicPep.operand_loop cfg ops c' s'
    | Throw e s' => Throw e s'
    | Fatal msg => Fatal msg
    end.
Proof. reflexivity. Qed.

(** The loop touches nothing but the dynamic-info queue. *)
Lemma operand_loop_frame ops : forall c s,
  match MagicPep.operand_loop cfg ops c s with
  | Normal _ s' | Throw _ s' =>
      s' = set_dynamic_info_queue (m_dynamic_info_queue s') s
  | Fatal _ => True
  end.
Proof.
  induction ops as [|o ops IH]; intros c s.
  - simpl. symmetry. apply set_dynamic_info_queue_same.
  - rewrite operand_loop_cons.
    destruct (MagicPep.handleOperand cfg o c s) as [c1 s1|e s1|msg] eqn:Ho.
    + specialize (IH c1 s1).
      apply handleOperand_normal_inv in Ho.
      destruct Ho as [(_ & _ & ->)|(_ & front & q & _ & _ & _ & _ & ->)];
        [exact IH|].
      destruct (gated_off cfg s); [exact IH|].
      destruct (MagicPep.operand_loop cfg ops c1 (set_dynamic_info_queue q s));
        try exact I; rewrite IH at 1; reflexivity.
    + apply handleOperand_throw_inv in Ho. destruct Ho as (_ & -> & _ & _).
      symmetry. apply set_dynamic_info_queue_same.
    + exact I.
Qed.

(** With the gate open, a normal return has popped one matching fact per
    memory operand, in order, and has added their latencies. *)
Lemma operand_loop_normal_inv ops : forall c s c' s',
  gated_off cfg s = false ->
  MagicPep.operand_loop cfg ops c s = Normal c' s' ->
  exists popped,
    m_dynamic_info_queue s = popped ++ m_dynamic_info_queue s' /\
    Forall2 (fun o info => operand_matches o info = true)
            (filter is_memory ops) popped /\
    UInt64.wrap c' = UInt64.wrap (c + total_latency popped).
Proof.
  induction ops as [|o ops IH]; intros c s c' s' Hgate H.
  - inversion H; subst. exists []. simpl. repeat split.
    + constructor.
    + f_equal. lia.
  - rewrite operand_loop_cons in H.
    destruct (MagicPep.handleOperand cfg o c s) as [c1 s1|e s1|msg] eqn:Ho;
      try discriminate.
    apply handleOperand_normal_inv in Ho.
    destruct Ho as [(Hmem & -> & ->)|(Hmem & front & q & Hq & _ & Hm & -> & ->)].
    + simpl. rewrite Hmem. eapply IH; eauto.
    + rewrite Hgate in H.
      assert (Hgate' : gated_off cfg (set_dynamic_info_queue q s) = false)
        by (rewrite gated_off_set_dynamic_info_queue; exact Hgate).
      destruct (IH _ _ _ _ Hgate' H) as (popped & Hpop & Hall & Hcost).
      exists (front :: popped). simpl. rewrite Hmem. repeat split.
      * rewrite Hq. simpl in Hpop. rewrite Hpop. reflexivity.
      * constructor; assumption.
      * rewrite Hcost. unfold UInt64.add. rewrite wrap_add_l. f_equal. lia.
Qed.
End MagicPepLoop.

Section MagicPepInstruction.
Variable cfg : Config.

(** The operand loop only throws when the facts run out before the memory
    operands do, and then every fact that was there has been popped or,
    with the gate closed, there was none. *)
Lemma operand_loop_throw_inv ops : forall c s e s',
  MagicPep.operand_loop cfg ops c s = Throw e s' ->
  e = NotAvailable /\
  m_dynamic_info_queue s' = [] /\
  (length (m_dynamic_info_queue s) < length (filter is_memory ops))%nat.
Proof.
  induction ops as [|o ops IH]; intros c s e s' H.
  - discriminate.
  - rewrite operand_loop_cons in H.
    destruct (MagicPep.handleOperand cfg o c s) as [c1 s1|e1 s1|msg] eqn:Ho;
      try discriminate.
    + apply handleOperand_normal_inv in Ho.
      destruct Ho as [(Hmem & -> & ->)|(Hmem & front & q & Hq & _ & _ & -> & ->)].
      * simpl. rewrite Hmem. eapply IH; eauto.
      * simpl. rewrite Hmem. simpl. rewrite Hq. simpl.
        destruct (gated_off cfg s).
        -- destruct (IH _ _ _ _ H) as (He & Hs' & Hlen).
           rewrite Hq in Hlen. simpl in Hlen. repeat split; auto; lia.
        -- destruct (IH _ _ _ _ H) as (He & Hs' & Hlen).
           simpl in Hlen. repeat split; auto; lia.
    + inversion H; subst.
      apply handleOperand_throw_inv in Ho. destruct Ho as (-> & -> & Hq & Hmem).
      simpl. rewrite Hmem, Hq. simpl. repeat split; auto; lia.
Qed.

Lemma charged_wrap infos : forall c,
  UInt64.wrap (charged infos c) = UInt64.wrap (c + total_latency infos).
Proof.
  induction infos as [|info infos IH]; intros c; simpl.
  - f_equal. lia.
  - unfold charged in IH. rewrite IH. unfold UInt64.add.
    rewrite wrap_add_l. f_equal. lia.
Qed.

(** With the gate open and a matching fact queued for each memory operand,
    the loop returns. *)
Lemma operand_loop_complete ops : forall infos rest c s,
  gated_off cfg s = false ->
  m_dynamic_info_queue s = infos ++ rest ->
  size (m_dynamic_info_queue s) < DYNAMIC_INFO_QUEUE_CAP ->
  Forall2 (fun o info => operand_matches o info = true)
          (filter is_memory ops) infos ->
  MagicPep.operand_loop cfg ops c s =
    Normal (charged infos c) (set_dynamic_info_queue rest s).
Proof.
  induction ops as [|o ops IH]; intros infos rest c s Hgate Hq Hcap Hall.
  - simpl in Hall. inversion Hall; subst. simpl in *.
    rewrite <- Hq, set_dynamic_info_queue_same. reflexivity.
  - rewrite operand_loop_cons. simpl in Hall.
    destruct (is_memory o) eqn:Hmem.
    + inversion Hall as [|o' front ops' infos' Hm Hall' E1 E2]; subst.
      simpl in Hq.
      rewrite (handleOperand_front cfg o c s front (infos' ++ rest) Hmem Hq Hcap Hm).
      rewrite Hgate.
      rewrite (IH infos' rest); auto.
      rewrite Hq, size_cons in Hcap. simpl. lia.
    + rewrite (handleOperand_not_memory cfg o c s Hmem).
      apply IH; auto.
Qed.

Lemma handleInstruction_unfold i s :
  MagicPep.handleInstruction cfg i s =
    match MagicPep.operand_loop cfg (getOperands i) 0 s with
    | Normal cost s' => Normal tt (charge_instruction cost i s')
    | Throw e s' => Throw e s'
    | Fatal msg => Fatal msg
    end.
Proof.
  unfold MagicPep.handleInstruction, bind.
  destruct (MagicPep.operand_loop cfg (getOperands i) 0 s); reflexivity.
Qed.

Lemma cycle_count_charge_instruction cost i s :
  m_cycle_count (charge_instruction cost i s) =
    UInt64.wrap (m_cycle_count s + UInt64.wrap cost + own_cost i).
Proof.
  unfold charge_instruction, own_cost. simpl.
  destruct (MagicPep.isModeled (getType i)); unfold UInt64.add;
    rewrite wrap_add_r;
    match goal with |- _ = UInt64.wrap (?a + UInt64.wrap ?b + ?c) =>
      replace (a + UInt64.wrap b + c) with (UInt64.wrap b + (a + c)) by lia
    end;
    rewrite wrap_add_l; f_equal; lia.
Qed.

Lemma handleInstruction_complete i infos rest s :
  gated_off cfg s = false ->
  m_dynamic_info_queue s = infos ++ rest ->
  size (m_dynamic_info_queue s) < DYNAMIC_INFO_QUEUE_CAP ->
  Forall2 (fun o info => operand_matches o info = true) (memory_operands i) infos ->
  MagicPep.handleInstruction cfg i s =
    Normal tt (charge_instruction (charged infos 0) i (set_dynamic_info_queue rest s)).
Proof.
  intros Hgate Hq Hcap Hall. rewrite handleInstruction_unfold.
  rewrite (operand_loop_complete _ infos rest 0 s Hgate Hq Hcap Hall).
  reflexivity.
Qed.

Lemma handleInstruction_throw_inv i s e s' :
  MagicPep.handleInstruction cfg i s = Throw e s' ->
  e = NotAvailable /\
  s' = set_dynamic_info_queue [] s /\
  (length (m_dynamic_info_queue s) < length (memory_operands i))%nat.
Proof.
  rewrite handleInstruction_unfold. intros H.
  pose proof (operand_loop_frame cfg (getOperands i) 0 s) as Hframe.
  destruct (MagicPep.operand_loop cfg (getOperands i) 0 s) as [c1 s1|e1 s1|msg] eqn:Hl;
    try discriminate.
  inversion H; subst.
  apply operand_loop_throw_inv in Hl. destruct Hl as (He & Hq & Hlen).
  rewrite Hq in Hframe. auto.
Qed.

(** The handler never touches the basic-block queue or the cursor. *)
Lemma handleInstruction_frame i s :
  match MagicPep.handleInstruction cfg i s with
  | Normal _ s' | Throw _ s' =>
      m_basic_block_queue s' = m_basic_block_queue s /\
      m_current_ins_index s' = m_current_ins_index s /\
      m_enabled s' = m_enabled s
  | Fatal _ => True
  end.
Proof.
  rewrite handleInstruction_unfold.
  pose proof (operand_loop_frame cfg (getOperands i) 0 s) as Hframe.
  destruct (MagicPep.operand_loop cfg (getOperands i) 0 s) as [c1 s1|e1 s1|msg];
    try exact I; rewrite Hframe; repeat split.
Qed.
End MagicPepInstruction.

(** ** Cost of one instruction in the magic PEP model *)

Lemma Forall2_app_eq_length {A B} (R : A -> B -> Prop) l :
  forall xs ys rest rest',
    Forall2 R l xs -> length ys = length l -> xs ++ rest = ys ++ rest' -> xs = ys.
Proof.
  induction l as [|a l IH]; intros xs ys rest rest' Hall Hlen Heq.
  - inversion Hall; subst. destruct ys; [reflexivity|discriminate].
  - inversion Hall as [|a' x l' xs' HR Hall' E1 E2]; subst.
    destruct ys as [|y ys]; [discriminate|].
    simpl in *. inversion Heq; subst. f_equal.
    eapply IH; eauto.
Qed.

(** C2, as amended: with the gate open ([enabled] set and performance
    modeling configured on), a call of [handleInstruction] that returns has
    popped exactly one fact per memory operand of the instruction, each of
    the variant its operand asks for and in operand order, and has moved
    [cycle_count] on, modulo [2^64], by the sum of their latencies plus the
    static cost for RECV, SYNC and SPAWN and plus 1 for every other type. The
    call throws only when the facts run out first, and then leaves
    [cycle_count] alone; facts that do not match the operands end it in a
    fatal assertion. *)
Theorem magic_pep_handleInstruction_cost cfg i s
    (Hgate : gated_off cfg s = false) :
  match MagicPep.handleInstruction cfg i s with
  | Normal _ s' =>
      exists popped,
        m_dynamic_info_queue s = popped ++ m_dynamic_info_queue s' /\
        length popped = length (memory_operands i) /\
        Forall2 (fun o info => operand_matches o info = true) (memory_operands i) popped /\
        m_cycle_count s' =
          UInt64.wrap (m_cycle_count s + total_latency popped + own_cost i) /\
        (UInt64.in_range (m_cycle_count s + total_latency popped + own_cost i) ->
         m_cycle_count s' = m_cycle_count s + total_latency popped + own_cost i)
  | Throw e s' =>
      e = NotAvailable /\
      (length (m_dynamic_info_queue s) < length (memory_operands i))%nat /\
      m_cycle_count s' = m_cycle_count s
  | Fatal _ => True
  end /\
  (forall infos rest,
      m_dynamic_info_queue s = infos ++ rest ->
      length infos = length (memory_operands i) ->
      ~ Forall2 (fun o info => operand_matches o info = true) (memory_operands i) infos ->
      exists msg, MagicPep.handleInstruction cfg i s = Fatal msg).
Proof.
  assert (Hnormal : forall s', MagicPep.handleInstruction cfg i s = Normal tt s' ->
    exists popped,
      m_dynamic_info_queue s = popped ++ m_dynamic_info_queue s' /\
      Forall2 (fun o info => operand_matches o info = true) (memory_operands i) popped /\
      m_cycle_count s' =
        UInt64.wrap (m_cycle_count s + total_latency popped + own_cost i)).
  { intros s' H. rewrite handleInstruction_unfold in H.
    pose proof (operand_loop_frame cfg (getOperands i) 0 s) as Hframe.
    destruct (MagicPep.operand_loop cfg (getOperands i) 0 s) as [c1 s1|e1 s1|msg] eqn:Hl;
      try discriminate.
    inversion H; subst s'. clear H.
    destruct (operand_loop_normal_inv cfg _ _ _ _ _ Hgate Hl) as (popped & Hq & Hall & Hc).
    exists popped. repeat split; auto.
    rewrite cycle_count_charge_instruction, Hc.
    replace (m_cycle_count s1) with (m_cycle_count s) by (rewrite Hframe; reflexivity).
    replace (m_cycle_count s + UInt64.wrap (0 + total_latency popped) + own_cost i)
      with (UInt64.wrap (0 + total_latency popped) + (m_cycle_count s + own_cost i))
      by lia.
    rewrite wrap_add_l. f_equal. lia. }
  split.
  - destruct (MagicPep.handleInstruction cfg i s) as [[] s'|e s'|msg] eqn:H.
    + destruct (Hnormal s' eq_refl) as (popped & Hq & Hall & Hc).
      exists popped. repeat split; auto.
      * symmetry. eapply Forall2_length; eauto.
      * intros Hr. rewrite Hc. apply wrap_small. exact Hr.
    + apply handleInstruction_throw_inv in H. destruct H as (-> & -> & Hlen).
      repeat split; auto.
    + exact I.
  - intros infos rest Hq Hlen Hnot.
    destruct (MagicPep.handleInstruction cfg i s) as [[] s'|e s'|msg] eqn:H.
    + exfalso. destruct (Hnormal s' eq_refl) as (popped & Hq' & Hall & _).
      apply Hnot. rewrite Hq in Hq'.
      rewrite <- (Forall2_app_eq_length _ _ _ _ _ _ Hall Hlen (eq_sym Hq')).
      exact Hall.
    + exfalso. apply handleInstruction_throw_inv in H. destruct H as (_ & _ & Hlt).
      rewrite Hq, length_app in Hlt. lia.
    + exists msg. reflexivity.
Qed.

Lemma magic_pep_handleInstruction_cost_witness :
  gated_off Example.cfg Example.enabled_model = false /\
  m_cycle_count
    (match MagicPep.handleInstruction Example.cfg Example.load Example.enabled_model with
     | Normal _ s' => s'
     | _ => Example.enabled_model
     end) = 6.
Proof.
  split; [reflexivity|].
  pose proof (magic_pep_handleInstruction_cost Example.cfg Example.load
                Example.enabled_model eq_refl) as [H _].
  destruct (MagicPep.handleInstruction Example.cfg Example.load Example.enabled_model)
    as [[] s'|e s'|msg] eqn:E; try discriminate.
  destruct H as (popped & Hq & Hlen & _ & Hc & _).
  destruct popped as [|p [|]]; try discriminate.
  inversion Hq; subst. rewrite Hc. reflexivity.
Defined.

(** C2 as stated fails when the gate is closed: [disable()] does not stop
    [iterate()], whose handler then peeks a fact for the memory operand and
    charges its latency, while [popDynamicInstructionInfo] returns at its
    guard and pops nothing. *)
Lemma magic_pep_handleInstruction_cost_counterexample :
  exists s s',
    Example.calls
      [ enable Example.cfg;
        pushDynamicInstructionInfo Example.cfg (Example.fact 5);
        queueDynamicInstruction Example.cfg Example.load;
        queueBasicBlock Example.cfg Example.sentinel;
        disable ] (construct Example.one) = Normal tt s /\
    m_basic_block_queue s = [mkBasicBlock true [Example.load]; Example.sentinel] /\
    MagicPep.iterate Example.cfg s = Normal tt s' /\
    m_instruction_count s' = 1 /\
    m_cycle_count s' = m_cycle_count s + 5 + 1 /\
    length (memory_operands Example.load) = 1%nat /\
    m_dynamic_info_queue s' = m_dynamic_info_queue s /\
    m_dynamic_info_queue s = [Example.fact 5].
Proof.
  eexists. eexists. split; [vm_compute; reflexivity|].
  split; [reflexivity|]. split; [vm_compute; reflexivity|].
  repeat split.
Qed.

(** ** The cooperative loop *)

Section IterateFacts.
Variable handleInstruction : Instruction -> M unit.

Lemma for_loop_cons i todo s :
  for_loop handleInstruction (i :: todo) s =
    match handleInstruction i s with
    | Normal _ s' => for_loop handleInstruction todo (advance_cursor s')
    | Throw AbortInstructionException s' =>
        for_loop handleInstruction todo (advance_cursor s')
    | Throw DynamicInstructionInfoNotAvailableException s' => Throw NotAvailable s'
    | Fatal msg => Fatal msg
    end.
Proof. reflexivity. Qed.

Lemma while_loop_sentinel queue s :
  (length queue <= 1)%nat -> while_loop handleInstruction queue s = Normal tt s.
Proof.
  destruct queue as [|bb [|bb' queue]]; simpl; intros H; try reflexivity; lia.
Qed.

Lemma while_loop_cons current_bb bb' queue s :
  while_loop handleInstruction (current_bb :: bb' :: queue) s =
    match for_loop handleInstruction
            (skipn (m_current_ins_index s) (instructions current_bb)) s with
    | Normal _ s1 =>
        match retire_block current_bb s1 with
        | Normal _ s2 => while_loop handleInstruction (bb' :: queue) s2
        | Throw DynamicInstructionInfoNotAvailableException s2 => Normal tt s2
        | Throw AbortInstructionException s2 => Throw AbortInstructionException s2
        | Fatal msg => Fatal msg
        end
    | Throw DynamicInstructionInfoNotAvailableException s1 => Normal tt s1
    | Throw AbortInstructionException s1 => Throw AbortInstructionException s1
    | Fatal msg => Fatal msg
    end.
Proof.
  simpl. unfold bind.
  destruct (for_loop handleInstruction
              (skipn (m_current_ins_index s) (instructions current_bb)) s)
    as [[] s1|[] s1|msg]; try reflexivity;
    destruct (retire_block current_bb s1) as [[] s2|[] s2|msg]; reflexivity.
Qed.

Lemma retire_block_eq current_bb s :
  retire_block current_bb s =
    Normal tt
      (set_current_ins_index 0
         (set_basic_block_queue (tl (m_basic_block_queue s))
            (if isDynamic current_bb
             then log_freed (FreedBasicBlock current_bb) s
             else s))).
Proof.
  unfold retire_block, bind, modify, ret. destruct (isDynamic current_bb); reflexivity.
Qed.

(** The loop stops at the first instruction whose facts are missing. *)
Lemma iterate_stalls s current_bb queue' i s1 :
  m_basic_block_queue s = current_bb :: queue' ->
  queue' <> [] ->
  nth_error (instructions current_bb) (m_current_ins_index s) = Some i ->
  handleInstruction i s = Throw NotAvailable s1 ->
  iterate handleInstruction s = Normal tt s1.
Proof.
  intros Hq Hne Hnth Hthrow. unfold iterate. rewrite Hq.
  destruct queue' as [|bb' queue]; [congruence|].
  rewrite while_loop_cons, (skipn_nth_error _ _ _ Hnth), for_loop_cons, Hthrow.
  reflexivity.
Qed.

Hypothesis Hframe : handler_frame handleInstruction.

(** Once the instruction under the cursor is done, the loop is where a
    fresh call with the cursor moved on by one would be. *)
Lemma iterate_resumes s current_bb queue' i s1 :
  m_basic_block_queue s = current_bb :: queue' ->
  queue' <> [] ->
  nth_error (instructions current_bb) (m_current_ins_index s) = Some i ->
  handleInstruction i s = Normal tt s1 ->
  iterate handleInstruction s = iterate handleInstruction (advance_cursor s1).
Proof.
  intros Hq Hne Hnth Hdone. unfold iterate.
  pose proof (Hframe i s) as Hf. rewrite Hdone in Hf. destruct Hf as [Hq1 Hc1].
  replace (m_basic_block_queue (advance_cursor s1)) with (m_basic_block_queue s)
    by (rewrite <- Hq1; reflexivity).
  rewrite Hq. destruct queue' as [|bb' queue]; [congruence|].
  rewrite !while_loop_cons, (skipn_nth_error _ _ _ Hnth), for_loop_cons, Hdone.
  replace (m_current_ins_index (advance_cursor s1)) with (S (m_current_ins_index s))
    by (rewrite <- Hc1; reflexivity).
  reflexivity.
Qed.

(** The [for] loop keeps the queue and only moves the cursor forward; the
    one exception that leaves it is the stall. *)
Lemma for_loop_frame todo : forall s,
  match for_loop handleInstruction todo s with
  | Normal _ s' =>
      m_basic_block_queue s' = m_basic_block_queue s /\
      (m_current_ins_index s <= m_current_ins_index s')%nat
  | Throw e s' =>
      e = NotAvailable /\
      m_basic_block_queue s' = m_basic_block_queue s /\
      (m_current_ins_index s <= m_current_ins_index s')%nat
  | Fatal _ => True
  end.
Proof.
  induction todo as [|i todo IH]; intros s.
  - simpl. split; [reflexivity|lia].
  - rewrite for_loop_cons. pose proof (Hframe i s) as Hf.
    destruct (handleInstruction i s) as [[] s1|[] s1|msg]; try exact I.
    + destruct Hf as [Hq Hc]. specialize (IH (advance_cursor s1)).
      destruct (for_loop handleInstruction todo (advance_cursor s1)) as [[] s2|e s2|msg];
        try exact I; simpl in IH; intuition (try congruence; try lia).
    + destruct Hf as [Hq Hc]. specialize (IH (advance_cursor s1)).
      destruct (for_loop handleInstruction todo (advance_cursor s1)) as [[] s2|e s2|msg];
        try exact I; simpl in IH; intuition (try congruence; try lia).
    + destruct Hf as [Hq Hc]. repeat split; [congruence|lia].
Qed.

(** The [while] loop returns, or dies in a fatal assertion of the handler;
    when it returns the queue is a suffix of what it was, still holding its
    last block, and either a block has been retired or the cursor has not
    moved back. *)
Lemma while_loop_spec queue : forall s,
  m_basic_block_queue s = queue ->
  match while_loop handleInstruction queue s with
  | Normal _ s' =>
      exists retired,
        queue = retired ++ m_basic_block_queue s' /\
        (queue <> [] -> m_basic_block_queue s' <> []) /\
        (retired = [] -> (m_current_ins_index s <= m_current_ins_index s')%nat)
  | Throw _ _ => False
  | Fatal _ => True
  end.
Proof.
  induction queue as [|current_bb queue IH]; intros s Hq.
  - simpl. exists []. rewrite Hq. repeat split; auto.
  - destruct queue as [|bb' queue].
    + simpl. exists []. rewrite Hq. repeat split; auto; congruence.
    + rewrite while_loop_cons.
      pose proof (for_loop_frame
                    (skipn (m_current_ins_index s) (instructions current_bb)) s) as Hf.
      destruct (for_loop handleInstruction
                  (skipn (m_current_ins_index s) (instructions current_bb)) s)
        as [[] s1|[] s1|msg]; try exact I.
      * rewrite retire_block_eq.
        match goal with |- match while_loop _ _ ?s2 with _ => _ end =>
          assert (Hq2 : m_basic_block_queue s2 = bb' :: queue)
        end.
        { destruct Hf as [Hq1 _]. simpl.
          destruct (isDynamic current_bb); simpl; rewrite Hq1, Hq; reflexivity. }
        specialize (IH _ Hq2).
        match goal with |- match while_loop _ _ ?s2 with _ => _ end =>
          destruct (while_loop handleInstruction (bb' :: queue) s2) as [[] s3|e s3|msg]
        end; try exact IH.
        destruct IH as (retired & Hr & Hne & _).
        exists (current_bb :: retired). simpl. rewrite <- Hr.
        split; [reflexivity|]. split; [|discriminate].
        intros _. apply Hne. discriminate.
      * destruct Hf as [Hf _]. discriminate.
      * destruct Hf as (_ & Hq1 & Hc1). exists []. simpl. rewrite Hq1, Hq.
        split; [reflexivity|]. split; [discriminate|]. intros _. exact Hc1.
Qed.
End IterateFacts.

(** ** The guard of the queue operations *)

Section GateFacts.
Variable cfg : Config.

Lemma queueDynamicInstruction_gated i s :
  gated_off cfg s = true ->
  queueDynamicInstruction cfg i s = Normal tt (log_freed (FreedInstruction i) s).
Proof. intros H. unfold queueDynamicInstruction, bind, gets, modify. rewrite H. reflexivity. Qed.

Lemma queueDynamicInstruction_open i s :
  gated_off cfg s = false ->
  queueDynamicInstruction cfg i s =
    Normal tt (set_basic_block_queue (m_basic_block_queue s ++ [mkBasicBlock true [i]]) s).
Proof. intros H. unfold queueDynamicInstruction, bind, gets, modify. rewrite H. reflexivity. Qed.

Lemma queueBasicBlock_gated bb s :
  gated_off cfg s = true -> queueBasicBlock cfg bb s = Normal tt s.
Proof. intros H. unfold queueBasicBlock, bind, gets, ret. rewrite H. reflexivity. Qed.

Lemma queueBasicBlock_open bb s :
  gated_off cfg s = false ->
  queueBasicBlock cfg bb s =
    Normal tt (set_basic_block_queue (m_basic_block_queue s ++ [bb]) s).
Proof. intros H. unfold queueBasicBlock, bind, gets, modify. rewrite H. reflexivity. Qed.

Lemma pushDynamicInstructionInfo_gated info s :
  gated_off cfg s = true -> pushDynamicInstructionInfo cfg info s = Normal tt s.
Proof. intros H. unfold pushDynamicInstructionInfo, bind, gets, ret. rewrite H. reflexivity. Qed.

Lemma pushDynamicInstructionInfo_open info s :
  gated_off cfg s = false ->
  pushDynamicInstructionInfo cfg info s =
    Normal tt (set_dynamic_info_queue (m_dynamic_info_queue s ++ [info]) s).
Proof.
  intros H. unfold pushDynamicInstructionInfo, bind, gets, modify. rewrite H. reflexivity.
Qed.

Lemma popDynamicInstructionInfo_gated s :
  gated_off cfg s = true -> popDynamicInstructionInfo cfg s = Normal tt s.
Proof. intros H. unfold popDynamicInstructionInfo, bind, gets, ret. rewrite H. reflexivity. Qed.

Lemma popDynamicInstructionInfo_open s :
  gated_off cfg s = false ->
  popDynamicInstructionInfo cfg s =
    if 0 <? size (m_dynamic_info_queue s)
    then if size (m_dynamic_info_queue s) <? DYNAMIC_INFO_QUEUE_CAP
         then Normal tt (set_dynamic_info_queue (tl (m_dynamic_info_queue s)) s)
         else Fatal "Dynamic info queue is growing too big."%string
    else Fatal "Expected some dynamic info to be available."%string.
Proof.
  intros H. unfold popDynamicInstructionInfo, bind, gets, modify, LOG_ASSERT_ERROR.
  rewrite H.
  destruct (0 <? size (m_dynamic_info_queue s)); [|reflexivity].
  destruct (size (m_dynamic_info_queue s) <? DYNAMIC_INFO_QUEUE_CAP); reflexivity.
Qed.

Lemma getDynamicInstructionInfo_eq s :
  getDynamicInstructionInfo s =
    match m_dynamic_info_queue s with
    | [] => Throw NotAvailable s
    | front :: _ =>
        if size (m_dynamic_info_queue s) <? DYNAMIC_INFO_QUEUE_CAP
        then Normal front s
        else Fatal "Dynamic info queue is growing too big."%string
    end.
Proof.
  unfold getDynamicInstructionInfo, bind, gets, throw, LOG_ASSERT_ERROR, ret.
  destruct (m_dynamic_info_queue s) as [|front q]; [reflexivity|].
  destruct (size (front :: q) <? DYNAMIC_INFO_QUEUE_CAP); reflexivity.
Qed.

Lemma magic_pep_handler_frame : handler_frame (MagicPep.handleInstruction cfg).
Proof.
  intros i s. pose proof (handleInstruction_frame cfg i s) as H.
  destruct (MagicPep.handleInstruction cfg i s); try exact I; tauto.
Qed.
End GateFacts.

(** ** The sentinel block *)

(** C5: [iterate()] on an empty queue, and on a queue of one block, returns
    at once with the state as it was; and whenever it returns, the queue it
    leaves is what remains of the queue it found after some blocks at the
    front have been retired, and it still holds a block if it held one. *)
Theorem iterate_keeps_sentinel handleInstruction
    (Hframe : handler_frame handleInstruction) s :
  (m_basic_block_queue s = [] -> iterate handleInstruction s = Normal tt s) /\
  (forall bb, m_basic_block_queue s = [bb] -> iterate handleInstruction s = Normal tt s) /\
  match iterate handleInstruction s with
  | Normal _ s' =>
      exists retired,
        m_basic_block_queue s = retired ++ m_basic_block_queue s' /\
        (m_basic_block_queue s <> [] -> m_basic_block_queue s' <> [])
  | Throw _ _ => False
  | Fatal _ => True
  end.
Proof.
  split; [|split].
  - intros Hq. unfold iterate. rewrite Hq. reflexivity.
  - intros bb Hq. unfold iterate. rewrite Hq. reflexivity.
  - unfold iterate.
    pose proof (while_loop_spec handleInstruction Hframe (m_basic_block_queue s) s eq_refl)
      as H.
    destruct (while_loop handleInstruction (m_basic_block_queue s) s) as [[] s'|e s'|msg];
      try exact H.
    destruct H as (retired & Hr & Hne & _). exists retired. split; assumption.
Qed.

Lemma iterate_keeps_sentinel_witness :
  handler_frame (MagicPep.handleInstruction Example.cfg) /\
  match MagicPep.iterate Example.cfg Scenario.queued with
  | Normal _ s' =>
      exists retired,
        m_basic_block_queue Scenario.queued = retired ++ m_basic_block_queue s' /\
        (m_basic_block_queue Scenario.queued <> [] -> m_basic_block_queue s' <> [])
  | Throw _ _ => False
  | Fatal _ => True
  end.
Proof.
  split.
  - apply magic_pep_handler_frame.
  - apply (iterate_keeps_sentinel (MagicPep.handleInstruction Example.cfg)
             (magic_pep_handler_frame Example.cfg) Scenario.queued).
Defined.

(** ** Stall and resume *)

(** C1, as amended. When the handler of the magic PEP model throws
    [DynamicInstructionInfoNotAvailableException] on the instruction under
    the cursor, [iterate()] returns with the cursor, the basic-block queue
    and [cycle_count] as they were. If moreover the gate is open and that
    instruction has exactly one memory operand, then pushing one fact that
    matches the operand makes the next [iterate()] take up that same
    instruction, charge it (the latency of the fact plus the cost of its
    own), empty the fact queue, move the cursor on by one and carry on from
    there; where this call returns, the head block has been retired or the
    cursor is beyond the instruction. *)
Theorem iterate_stall_then_resume cfg s current_bb queue' i s1
    (Hq : m_basic_block_queue s = current_bb :: queue')
    (Hne : queue' <> [])
    (Hnth : nth_error (instructions current_bb) (m_current_ins_index s) = Some i)
    (Hstall : MagicPep.handleInstruction cfg i s = Throw NotAvailable s1) :
  (MagicPep.iterate cfg s = Normal tt s1 /\
   m_current_ins_index s1 = m_current_ins_index s /\
   m_basic_block_queue s1 = m_basic_block_queue s /\
   m_cycle_count s1 = m_cycle_count s) /\
  (forall o info,
     gated_off cfg s = false ->
     memory_operands i = [o] ->
     operand_matches o info = true ->
     exists s2 s3,
       pushDynamicInstructionInfo cfg info s1 = Normal tt s2 /\
       MagicPep.handleInstruction cfg i s2 = Normal tt s3 /\
       m_cycle_count s3 =
         UInt64.wrap (m_cycle_count s + memory_info_latency info + own_cost i) /\
       m_dynamic_info_queue s3 = [] /\
       m_current_ins_index (advance_cursor s3) = S (m_current_ins_index s) /\
       MagicPep.iterate cfg s2 = MagicPep.iterate cfg (advance_cursor s3) /\
       match MagicPep.iterate cfg s2 with
       | Normal _ s4 =>
           (m_basic_block_queue s4 = m_basic_block_queue s /\
            (m_current_ins_index s < m_current_ins_index s4)%nat) \/
           (length (m_basic_block_queue s4) < length (m_basic_block_queue s))%nat
       | Throw _ _ => False
       | Fatal _ => True
       end).
Proof.
  pose proof (handleInstruction_throw_inv cfg i s _ _ Hstall) as (_ & Hs1 & Hlen).
  split.
  - split; [|subst s1; repeat split].
    unfold MagicPep.iterate. eapply iterate_stalls; eauto.
  - intros o info Hgate Hone Hmatch.
    rewrite Hone in Hlen. simpl in Hlen.
    assert (Hempty : m_dynamic_info_queue s = [])
      by (destruct (m_dynamic_info_queue s); [reflexivity|simpl in Hlen; lia]).
    assert (Hsame : s1 = s)
      by (rewrite Hs1, <- Hempty; apply set_dynamic_info_queue_same).
    clear Hs1. subst s1.
    set (s2 := set_dynamic_info_queue [info] s).
    assert (Hpush : pushDynamicInstructionInfo cfg info s = Normal tt s2)
      by (rewrite (pushDynamicInstructionInfo_open cfg info s Hgate), Hempty; reflexivity).
    assert (Hdone : MagicPep.handleInstruction cfg i s2 =
                    Normal tt (charge_instruction (charged [info] 0) i
                                 (set_dynamic_info_queue [] s2))).
    { apply handleInstruction_complete.
      - exact Hgate.
      - reflexivity.
      - reflexivity.
      - rewrite Hone. constructor; [exact Hmatch|constructor]. }
    set (s3 := charge_instruction (charged [info] 0) i (set_dynamic_info_queue [] s2))
      in *.
    assert (Hq2 : m_basic_block_queue s2 = current_bb :: queue') by exact Hq.
    assert (Hnth2 : nth_error (instructions current_bb) (m_current_ins_index s2) = Some i)
      by exact Hnth.
    assert (Hres : MagicPep.iterate cfg s2 = MagicPep.iterate cfg (advance_cursor s3)).
    { unfold MagicPep.iterate.
      eapply iterate_resumes; eauto. apply magic_pep_handler_frame. }
    exists s2, s3. repeat split; try assumption.
    + unfold s3. rewrite cycle_count_charge_instruction, charged_wrap. simpl.
      replace (m_cycle_count s + UInt64.wrap (memory_info_latency info + 0) + own_cost i)
        with (UInt64.wrap (memory_info_latency info + 0) + (m_cycle_count s + own_cost i))
        by lia.
      rewrite wrap_add_l. f_equal. lia.
    + rewrite Hres. unfold MagicPep.iterate, iterate.
      pose proof (while_loop_spec (MagicPep.handleInstruction cfg)
                    (magic_pep_handler_frame cfg)
                    (m_basic_block_queue (advance_cursor s3)) (advance_cursor s3) eq_refl)
        as H.
      destruct (while_loop (MagicPep.handleInstruction cfg)
                  (m_basic_block_queue (advance_cursor s3)) (advance_cursor s3))
        as [[] s4|e s4|msg]; try exact H.
      destruct H as (retired & Hr & _ & Hc).
      change (m_basic_block_queue (advance_cursor s3)) with (m_basic_block_queue s) in Hr.
      change (m_current_ins_index (advance_cursor s3))
        with (S (m_current_ins_index s)) in Hc.
      destruct retired as [|bb retired].
      * left. split; [symmetry; exact Hr|]. specialize (Hc eq_refl). lia.
      * right. rewrite Hr. simpl. rewrite length_app. lia.
Qed.

Lemma iterate_stall_then_resume_witness :
  exists s2 s3,
    pushDynamicInstructionInfo Example.cfg (Example.fact 5) Scenario.at_load
      = Normal tt s2 /\
    MagicPep.handleInstruction Example.cfg Example.load s2 = Normal tt s3 /\
    m_cycle_count s3 = 7 /\
    m_current_ins_index (advance_cursor s3) = 2%nat.
Proof.
  destruct (iterate_stall_then_resume Example.cfg Scenario.at_load
              Scenario.block [Example.sentinel] Example.load Scenario.at_load
              eq_refl ltac:(discriminate) eq_refl eq_refl) as [_ H].
  destruct (H (mkOperand MEMORY READ) (Example.fact 5) eq_refl eq_refl eq_refl)
    as (s2 & s3 & Hpush & Hdone & Hcycle & _ & Hcursor & _).
  exists s2, s3. repeat split; assumption.
Defined.

(** C1 as stated fails in two ways. An instruction with two memory operands
    is not completed by one matching fact: the next [iterate()] pops the
    fact for the first operand, finds none for the second, and returns with
    the cursor where it was and the fact gone. And on a disabled model
    [pushDynamicInfo] drops the fact, so the next [iterate()] stalls on the
    same instruction again. *)
Lemma iterate_stall_then_resume_counterexample :
  (exists s2 s3,
     MagicPep.handleInstruction Example.cfg Example.load_pair Scenario.pair_queued
       = Throw NotAvailable Scenario.pair_queued /\
     MagicPep.iterate Example.cfg Scenario.pair_queued = Normal tt Scenario.pair_queued /\
     pushDynamicInstructionInfo Example.cfg (Example.fact 5) Scenario.pair_queued
       = Normal tt s2 /\
     m_dynamic_info_queue s2 = [Example.fact 5] /\
     MagicPep.iterate Example.cfg s2 = Normal tt s3 /\
     m_current_ins_index s3 = m_current_ins_index Scenario.pair_queued /\
     m_basic_block_queue s3 = m_basic_block_queue Scenario.pair_queued /\
     m_instruction_count s3 = m_instruction_count Scenario.pair_queued /\
     m_cycle_count s3 = m_cycle_count Scenario.pair_queued /\
     m_dynamic_info_queue s3 = []) /\
  (let s := set_enabled false Scenario.at_load in
   MagicPep.handleInstruction Example.cfg Example.load s = Throw NotAvailable s /\
   MagicPep.iterate Example.cfg s = Normal tt s /\
   pushDynamicInstructionInfo Example.cfg (Example.fact 5) s = Normal tt s /\
   MagicPep.handleInstruction Example.cfg Example.load s = Throw NotAvailable s).
Proof.
  split.
  - eexists. eexists. repeat split; vm_compute; reflexivity.
  - repeat split; vm_compute; reflexivity.
Qed.

(** ** Frequency changes *)

(** C3: a frequency change first runs [recomputeAverageFrequency()], which
    with [delta = cycle_count - checkpointed_cycle_count] sets [total_time]
    to its old value plus [delta / frequency] at the old frequency, sets
    [average_frequency] to
    [(average_frequency * old total_time + delta) / new total_time] and
    checkpoints [cycle_count]; only then is [frequency] replaced. All of it
    is binary32 arithmetic. 100 cycles at frequency 1 followed by 100 cycles
    at frequency 2 give [total_time = 150] and
    [average_frequency = 200 / 150]. *)
Theorem frequency_change_accounting s frequency :
  (let delta :=
     Float32.of_UInt64 (UInt64.sub (m_cycle_count s) (m_checkpointed_cycle_count s)) in
   exists s1 s',
     recomputeAverageFrequency s = Normal tt s1 /\
     updateInternalVariablesOnFrequencyChange frequency s = Normal tt s' /\
     s' = set_frequency frequency s1 /\
     m_frequency s1 = m_frequency s /\
     m_total_time s' =
       Float32.add (m_total_time s) (Float32.div delta (m_frequency s)) /\
     m_average_frequency s' =
       Float32.div
         (Float32.add (Float32.mul (m_average_frequency s) (m_total_time s)) delta)
         (m_total_time s') /\
     m_checkpointed_cycle_count s' = m_cycle_count s /\
     m_cycle_count s' = m_cycle_count s /\
     m_frequency s' = frequency) /\
  (exists s',
     Example.calls
       [ MagicPep.handleInstruction Example.cfg (Example.sync 100);
         updateInternalVariablesOnFrequencyChange Example.two;
         MagicPep.handleInstruction Example.cfg (Example.sync 100);
         recomputeAverageFrequency ] (construct Example.one) = Normal tt s' /\
     m_cycle_count s' = 200 /\
     m_total_time s' = Float32.of_UInt64 150 /\
     m_average_frequency s' =
       Float32.div (Float32.of_UInt64 200) (Float32.of_UInt64 150)).
Proof.
  split.
  - intros delta. eexists. eexists. repeat split.
  - eexists. split; [vm_compute; reflexivity|]. repeat split.
Qed.

(** ** The enable gate *)

Lemma gated_off_disabled cfg s : m_enabled s = false -> gated_off cfg s = true.
Proof. intros H. unfold gated_off. rewrite H. reflexivity. Qed.

Lemma gated_off_unconfigured cfg s :
  getEnablePerformanceModeling cfg = false -> gated_off cfg s = true.
Proof. intros H. unfold gated_off. rewrite H. apply orb_true_r. Qed.

(** C9: on a model with [enabled] false, [queueInstruction] deletes the
    instruction it is given and leaves the basic-block queue as it is,
    [queueBasicBlock] and [pushDynamicInfo] return with the state as it is,
    and none of the three changes [cycle_count]. *)
Theorem disabled_model_drops cfg s i basic_block info
    (Hdisabled : m_enabled s = false) :
  (exists s',
     queueDynamicInstruction cfg i s = Normal tt s' /\
     freed s' = freed s ++ [FreedInstruction i] /\
     m_basic_block_queue s' = m_basic_block_queue s /\
     m_dynamic_info_queue s' = m_dynamic_info_queue s /\
     m_cycle_count s' = m_cycle_count s) /\
  queueBasicBlock cfg basic_block s = Normal tt s /\
  pushDynamicInstructionInfo cfg info s = Normal tt s.
Proof.
  pose proof (gated_off_disabled cfg s Hdisabled) as Hgate.
  split; [|split].
  - eexists. split; [apply queueDynamicInstruction_gated; exact Hgate|].
    repeat split.
  - apply queueBasicBlock_gated. exact Hgate.
  - apply pushDynamicInstructionInfo_gated. exact Hgate.
Qed.

Lemma disabled_model_drops_witness :
  m_enabled (construct Example.one) = false /\
  queueBasicBlock Example.cfg Example.sentinel (construct Example.one)
    = Normal tt (construct Example.one) /\
  pushDynamicInstructionInfo Example.cfg (Example.fact 5) (construct Example.one)
    = Normal tt (construct Example.one).
Proof.
  split; [reflexivity|].
  apply (disabled_model_drops Example.cfg (construct Example.one) Example.load
           Example.sentinel (Example.fact 5) eq_refl).
Defined.

(** C10: when [getEnablePerformanceModeling()] is false, then whatever
    [enabled] is, [queueInstruction] only deletes its argument,
    [queueBasicBlock], [pushDynamicInfo] and [popDynamicInfo] return with
    the state as it is, and [popDynamicInfo] returns so also on an empty
    queue and on one at or beyond the cap, where it would otherwise fail an
    assertion. *)
Theorem unconfigured_model_is_inert cfg s i basic_block info
    (Hoff : getEnablePerformanceModeling cfg = false) :
  (exists s',
     queueDynamicInstruction cfg i s = Normal tt s' /\
     freed s' = freed s ++ [FreedInstruction i] /\
     m_basic_block_queue s' = m_basic_block_queue s /\
     m_dynamic_info_queue s' = m_dynamic_info_queue s) /\
  queueBasicBlock cfg basic_block s = Normal tt s /\
  pushDynamicInstructionInfo cfg info s = Normal tt s /\
  popDynamicInstructionInfo cfg s = Normal tt s /\
  (forall cfg', getMCPCoreNum cfg' = getMCPCoreNum cfg ->
     getCurrentCoreID cfg' = getCurrentCoreID cfg ->
     getEnablePerformanceModeling cfg' = true ->
     m_enabled s = true ->
     (m_dynamic_info_queue s = [] \/
      DYNAMIC_INFO_QUEUE_CAP <= size (m_dynamic_info_queue s)) ->
     exists msg, popDynamicInstructionInfo cfg' s = Fatal msg).
Proof.
  pose proof (gated_off_unconfigured cfg s Hoff) as Hgate.
  split; [|split; [|split; [|split]]].
  - eexists. split; [apply queueDynamicInstruction_gated; exact Hgate|].
    repeat split.
  - apply queueBasicBlock_gated. exact Hgate.
  - apply pushDynamicInstructionInfo_gated. exact Hgate.
  - apply popDynamicInstructionInfo_gated. exact Hgate.
  - intros cfg' _ _ Hon Hen Hq.
    assert (Hopen : gated_off cfg' s = false)
      by (unfold gated_off; rewrite Hon, Hen; reflexivity).
    rewrite (popDynamicInstructionInfo_open cfg' s Hopen).
    destruct Hq as [Hq|Hq].
    + rewrite Hq. simpl. eexists. reflexivity.
    + destruct (0 <? size (m_dynamic_info_queue s)); [|eexists; reflexivity].
      apply Z.ltb_ge in Hq. rewrite Hq. eexists. reflexivity.
Qed.

Lemma unconfigured_model_is_inert_witness :
  getEnablePerformanceModeling Unconfigured.cfg = false /\
  m_enabled Unconfigured.enabled_model = true /\
  m_dynamic_info_queue Unconfigured.enabled_model = [] /\
  popDynamicInstructionInfo Unconfigured.cfg Unconfigured.enabled_model
    = Normal tt Unconfigured.enabled_model.
Proof.
  split; [reflexivity|]. split; [reflexivity|]. split; [reflexivity|].
  apply (unconfigured_model_is_inert Unconfigured.cfg Unconfigured.enabled_model
           Example.load Example.sentinel (Example.fact 5) eq_refl).
Defined.

(** ** Queues of a disabled model *)

Lemma call_keeps_empty_queues cfg handleInstruction c s :
  leaves_disabled cfg c = true ->
  m_enabled s = false -> queues_empty s ->
  exists s',
    call cfg handleInstruction c s = Normal tt s' /\
    m_enabled s' = false /\ queues_empty s'.
Proof.
  intros Hc Hdis [Hbb Hdyn].
  pose proof (gated_off_disabled cfg s Hdis) as Hgate.
  destruct c; simpl in *.
  - unfold enable. rewrite Hc. exists s. repeat split; assumption.
  - eexists. split; [reflexivity|]. repeat split; assumption.
  - rewrite (queueDynamicInstruction_gated cfg i s Hgate).
    eexists. split; [reflexivity|]. repeat split; assumption.
  - rewrite (queueBasicBlock_gated cfg basic_block s Hgate).
    exists s. repeat split; assumption.
  - rewrite (pushDynamicInstructionInfo_gated cfg info s Hgate).
    exists s. repeat split; assumption.
  - rewrite (popDynamicInstructionInfo_gated cfg s Hgate).
    exists s. repeat split; assumption.
  - unfold iterate. rewrite Hbb. exists s. repeat split; assumption.
  - eexists. split; [reflexivity|]. repeat split; assumption.
  - eexists. split; [reflexivity|]. repeat split; assumption.
  - eexists. split; [reflexivity|]. repeat split; assumption.
Qed.

(** C4, as amended: in every state reached from the constructed model by
    calls none of which can set [enabled] (any call but [enable()], and
    [enable()] on the MCP's own core), [enabled] is false and both queues are
    empty; and no such sequence of calls fails. [disable()] does not empty
    the queues. *)
Theorem never_enabled_queues_empty cfg handleInstruction frequency cs
    (Hcs : forallb (leaves_disabled cfg) cs = true) :
  exists s,
    run_calls cfg handleInstruction cs (construct frequency) = Normal tt s /\
    m_enabled s = false /\
    m_basic_block_queue s = [] /\
    m_dynamic_info_queue s = [].
Proof.
  assert (H : forall s0, m_enabled s0 = false -> queues_empty s0 ->
            exists s, run_calls cfg handleInstruction cs s0 = Normal tt s /\
                      m_enabled s = false /\ queues_empty s).
  { induction cs as [|c cs IH]; intros s0 Hdis Hempty.
    - exists s0. repeat split; try assumption; apply Hempty.
    - simpl in Hcs. apply andb_prop in Hcs. destruct Hcs as [Hc Hcs'].
      destruct (call_keeps_empty_queues cfg handleInstruction c s0 Hc Hdis Hempty)
        as (s1 & Hcall & Hdis1 & Hempty1).
      destruct (IH Hcs' s1 Hdis1 Hempty1) as (s & Hrun & Hdis' & Hempty').
      exists s. split; [|split; assumption].
      simpl. unfold bind. rewrite Hcall. exact Hrun. }
  destruct (H (construct frequency) eq_refl (conj eq_refl eq_refl))
    as (s & Hrun & Hdis & Hbb & Hdyn).
  exists s. repeat split; assumption.
Qed.

Lemma never_enabled_queues_empty_witness :
  exists s,
    run_calls Example.cfg (MagicPep.handleInstruction Example.cfg)
      [ CallQueueDynamicInstruction Example.load;
        CallPushDynamicInstructionInfo (Example.fact 5);
        CallDisable;
        CallIterate ] (construct Example.one) = Normal tt s /\
    m_enabled s = false /\
    m_basic_block_queue s = [] /\
    m_dynamic_info_queue s = [].
Proof.
  apply (never_enabled_queues_empty Example.cfg
           (MagicPep.handleInstruction Example.cfg) Example.one
           [ CallQueueDynamicInstruction Example.load;
             CallPushDynamicInstructionInfo (Example.fact 5);
             CallDisable;
             CallIterate ] eq_refl).
Defined.

(** C4 as stated fails: what is queued while the model is enabled is still
    queued after [disable()]. *)
Lemma never_enabled_queues_empty_counterexample :
  exists s,
    run_calls Example.cfg (MagicPep.handleInstruction Example.cfg)
      [ CallEnable;
        CallQueueBasicBlock Example.sentinel;
        CallPushDynamicInstructionInfo (Example.fact 5);
        CallDisable ] (construct Example.one) = Normal tt s /\
    m_enabled s = false /\
    m_basic_block_queue s = [Example.sentinel] /\
    m_dynamic_info_queue s = [Example.fact 5].
Proof.
  eexists. split; [vm_compute; reflexivity|]. repeat split.
Qed.

(** ** The cap on the fact queue *)

(** C7, as amended: the cap is a check on the consumer's side only. On a
    queue that holds 5000 entries or more, [getDynamicInstructionInfo] ends
    in the fatal assertion, and so does [popDynamicInstructionInfo] when the
    gate is open; [pushDynamicInfo] checks nothing: with the gate open it
    returns normally and leaves the queue one entry longer. *)
Theorem dynamic_info_queue_cap cfg s
    (Hcap : DYNAMIC_INFO_QUEUE_CAP <= size (m_dynamic_info_queue s)) :
  (exists msg, getDynamicInstructionInfo s = Fatal msg) /\
  (gated_off cfg s = false ->
     (exists msg, popDynamicInstructionInfo cfg s = Fatal msg) /\
     (forall info, exists s',
        pushDynamicInstructionInfo cfg info s = Normal tt s' /\
        size (m_dynamic_info_queue s') = size (m_dynamic_info_queue s) + 1)).
Proof.
  assert (Hge : (size (m_dynamic_info_queue s) <? DYNAMIC_INFO_QUEUE_CAP) = false)
    by (apply Z.ltb_ge; exact Hcap).
  split.
  - rewrite getDynamicInstructionInfo_eq.
    destruct (m_dynamic_info_queue s) as [|front q] eqn:Hq.
    + exfalso. unfold DYNAMIC_INFO_QUEUE_CAP in Hcap. rewrite size_nil in Hcap. lia.
    + rewrite Hge. eexists. reflexivity.
  - intros Hgate. split.
    + rewrite (popDynamicInstructionInfo_open cfg s Hgate), Hge.
      destruct (0 <? size (m_dynamic_info_queue s)); eexists; reflexivity.
    + intros info. eexists.
      split; [apply pushDynamicInstructionInfo_open; exact Hgate|].
      simpl. rewrite size_app. reflexivity.
Qed.

Lemma dynamic_info_queue_cap_witness :
  DYNAMIC_INFO_QUEUE_CAP <= size (m_dynamic_info_queue Flood.full_model) /\
  exists msg, getDynamicInstructionInfo Flood.full_model = Fatal msg.
Proof.
  assert (H : DYNAMIC_INFO_QUEUE_CAP <= size (m_dynamic_info_queue Flood.full_model))
    by (vm_compute; discriminate).
  split; [exact H|].
  apply (dynamic_info_queue_cap Example.cfg Flood.full_model H).
Defined.

(** C7 as stated fails: on an enabled model 5001 pushes in a row all return
    normally, and leave 5001 entries in the queue. *)
Lemma dynamic_info_queue_cap_counterexample :
  exists s,
    run_calls Example.cfg (MagicPep.handleInstruction Example.cfg)
      (CallEnable ::
       repeat (CallPushDynamicInstructionInfo (Example.fact 5)) (Z.to_nat 5001))
      (construct Example.one) = Normal tt s /\
    size (m_dynamic_info_queue s) = 5001 /\
    DYNAMIC_INFO_QUEUE_CAP < size (m_dynamic_info_queue s).
Proof.
  eexists. split; [vm_compute; reflexivity|].
  split; vm_compute; reflexivity.
Qed.

(** ** Reading a packet *)

Lemma bytes_at_prefix (pre rest : Bytes) k n :
  bytes_at (pre ++ rest) (length pre + k) n = bytes_at rest k n.
Proof.
  unfold bytes_at. rewrite skipn_app, skipn_all2 by lia.
  replace (length pre + k - length pre)%nat with k by lia. reflexivity.
Qed.

Lemma bytes_at_here (bs rest : Bytes) :
  bytes_at (bs ++ rest) 0 (length bs) = Some bs.
Proof.
  unfold bytes_at. simpl skipn. rewrite firstn_app, firstn_all, Nat.sub_diag.
  simpl. rewrite app_nil_r, Nat.eqb_refl. reflexivity.
Qed.

Lemma bytes_at_short (buf : Bytes) off n :
  (0 < n)%nat -> (length buf < off + n)%nat -> bytes_at buf off n = None.
Proof.
  intros Hn H. unfold bytes_at.
  destruct (Nat.eqb_spec (length (firstn n (skipn off buf))) n) as [E|E];
    [|reflexivity].
  rewrite length_firstn, length_skipn in E. lia.
Qed.

Lemma bytes_at_enough (buf : Bytes) off n :
  (off + n <= length buf)%nat -> bytes_at buf off n = Some (firstn n (skipn off buf)).
Proof.
  intros H. unfold bytes_at.
  destruct (Nat.eqb_spec (length (firstn n (skipn off buf))) n) as [E|E];
    [reflexivity|].
  rewrite length_firstn, length_skipn in E. lia.
Qed.

Lemma load_tag tag rest :
  0 <= tag < 2 ^ 31 -> load_SInt32 (le_split 4 tag ++ rest) 0 = Some tag.
Proof.
  intros H. unfold load_SInt32, load_UInt32.
  pose proof (bytes_at_here (le_split 4 tag) rest) as Hhere.
  rewrite length_le_split in Hhere. rewrite Hhere. simpl option_map.
  rewrite le_combine_split. f_equal. unfold signed32.
  change (2 ^ (Z.of_nat 4 * 8)) with (2 ^ 32).
  rewrite Z.mod_small by lia.
  destruct (Z.ltb_spec tag (2 ^ 31)); [reflexivity|lia].
Qed.

(** C8: what [processPacket] does with a THREAD_EXIT packet laid out as the
    specification has it, tag, then [thread_id], then [cycle_count], and
    followed by whatever else the buffer holds. [thread_id] is read from the
    word after the tag; the cycle count is read 32 bytes beyond that word,
    at bytes 36 to 43 of the packet: past the end when fewer than 28 bytes
    follow the payload, and otherwise out of what follows it. In neither
    case is it the [cycle_count] of the payload. *)
Theorem thread_exit_cycle_count_offset message_type tag thread_id cycle_count tail s
    (Htag : 0 <= tag < 2 ^ 31)
    (Hexit : message_type tag = Some LCP.LCP_MESSAGE_THREAD_EXIT)
    (Htid : 0 <= thread_id < 2 ^ 31) :
  let pkt := LCP.thread_exit_packet tag thread_id cycle_count ++ tail in
  LCP.processPacket message_type pkt s =
    if (length tail <? 28)%nat
    then LCP.Undefined
    else LCP.Returned
           (LCP.emit (LCP.deleted pkt)
              (LCP.emit
                 (LCP.masterOnThreadExit thread_id
                    (le_combine (firstn 8 (skipn 20 tail)))) s)).
Proof.
  intros pkt. unfold LCP.processPacket.
  assert (Hpkt : pkt = le_split 4 tag ++
                       (le_split 4 thread_id ++ le_split 8 cycle_count ++ tail))
    by (unfold pkt, LCP.thread_exit_packet; rewrite <- !app_assoc; reflexivity).
  rewrite Hpkt at 1. rewrite (load_tag tag _ Htag), Hexit.
  assert (Htid' : load_SInt32 pkt (0 + sizeof_SInt32) = Some thread_id).
  { rewrite Hpkt.
    change (0 + sizeof_SInt32)%nat with (length (le_split 4 tag) + 0)%nat.
    unfold load_SInt32, load_UInt32. rewrite bytes_at_prefix.
    rewrite <- (load_tag thread_id (le_split 8 cycle_count ++ tail) Htid) at 1.
    reflexivity. }
  rewrite Htid'.
  assert (Hcc : load_UInt64 pkt (ptr_add sizeof_UInt64 (0 + sizeof_SInt32) 4) =
                if (length tail <? 28)%nat then None
                else Some (le_combine (firstn 8 (skipn 20 tail)))).
  { unfold load_UInt64.
    change (ptr_add sizeof_UInt64 (0 + sizeof_SInt32) 4)
      with (length (LCP.thread_exit_packet tag thread_id cycle_count) + 20)%nat.
    unfold pkt. rewrite bytes_at_prefix.
    destruct (Nat.ltb_spec (length tail) 28) as [Hs|Hl].
    - rewrite bytes_at_short by lia. reflexivity.
    - rewrite bytes_at_enough by lia. reflexivity. }
  rewrite Hcc. destruct (length tail <? 28)%nat; reflexivity.
Qed.

Lemma thread_exit_cycle_count_offset_witness :
  LCP.processPacket LCP.example_message_type
    (LCP.thread_exit_packet 7 3 1000 ++ []) LCP.idle = LCP.Undefined /\
  LCP.processPacket LCP.example_message_type
    (LCP.thread_exit_packet 7 3 1000 ++ le_split 20 0 ++ le_split 8 42) LCP.idle =
    LCP.Returned
      (LCP.emit
         (LCP.deleted (LCP.thread_exit_packet 7 3 1000 ++ le_split 20 0 ++ le_split 8 42))
         (LCP.emit (LCP.masterOnThreadExit 3 42) LCP.idle)).
Proof.
  split.
  - apply (thread_exit_cycle_count_offset LCP.example_message_type 7 3 1000 []
             LCP.idle); [lia|reflexivity|lia].
  - apply (thread_exit_cycle_count_offset LCP.example_message_type 7 3 1000
             (le_split 20 0 ++ le_split 8 42) LCP.idle); [lia|reflexivity|lia].
Defined.

(** ** Broadcast to the processes *)

Lemma is_response_type pkt :
  MCP.is_response pkt = true -> MCP.type pkt = MCP.MCP_RESPONSE_TYPE.
Proof.
  unfold MCP.is_response, MCP.matches. simpl. rewrite orb_false_r.
  destruct (MCP.type pkt); simpl; intros H; try discriminate; reflexivity.
Qed.

Lemma take_matching_some m q pkt rest :
  MCP.take_matching m q = Some (pkt, rest) ->
  MCP.matches m pkt = true /\
  filter (MCP.matches m) q = pkt :: filter (MCP.matches m) rest /\
  filter (fun p => negb (MCP.matches m p)) q =
    filter (fun p => negb (MCP.matches m p)) rest.
Proof.
  revert pkt rest. induction q as [|p q IH]; intros pkt rest H; simpl in H.
  - discriminate.
  - destruct (MCP.matches m p) eqn:Hp.
    + inversion H; subst. simpl. rewrite Hp. auto.
    + destruct (MCP.take_matching m q) as [[found rest']|]; [|discriminate].
      inversion H; subst.
      destruct (IH _ _ eq_refl) as (Hm & Hf & Hn).
      simpl. rewrite Hp. simpl. rewrite Hf, Hn. auto.
Qed.

Lemma take_matching_none m q :
  MCP.take_matching m q = None -> filter (MCP.matches m) q = [].
Proof.
  induction q as [|p q IH]; simpl; intros H; [reflexivity|].
  destruct (MCP.matches m p); [discriminate|].
  destruct (MCP.take_matching m q) as [[found rest]|]; [discriminate|].
  apply IH. reflexivity.
Qed.

Lemma rounds_set_receiver g_config c pkt proc_ids : forall responses,
  MCP.rounds g_config (MCP.set_receiver c pkt) proc_ids responses =
  MCP.rounds g_config pkt proc_ids responses.
Proof.
  induction proc_ids as [|p proc_ids IH]; intros [|r responses]; simpl;
    try reflexivity.
  rewrite IH. unfold MCP.round. destruct (MCP.first_core g_config p); reflexivity.
Qed.

(** One turn of the loop: the send, then the wait for a response. *)
Lemma broadcast_to_process_spec g_config proc_id pkt net :
  match MCP.broadcast_to_process g_config proc_id pkt net with
  | MCP.Done pkt' net' =>
      exists c response,
        MCP.first_core g_config proc_id = Some c /\
        pkt' = MCP.set_receiver c pkt /\
        MCP.is_response response = true /\
        MCP.trace net' = MCP.trace net ++ MCP.round g_config pkt proc_id response /\
        filter MCP.is_response (MCP.inbound net) =
          response :: filter MCP.is_response (MCP.inbound net') /\
        filter (fun p => negb (MCP.is_response p)) (MCP.inbound net) =
          filter (fun p => negb (MCP.is_response p)) (MCP.inbound net')
  | MCP.Blocked net' =>
      filter MCP.is_response (MCP.inbound net) = [] /\
      exists c, MCP.first_core g_config proc_id = Some c /\
                MCP.trace net' = MCP.trace net ++ [MCP.Sent (MCP.set_receiver c pkt)]
  | MCP.FatalError _ => False
  | MCP.Undefined => MCP.first_core g_config proc_id = None
  end.
Proof.
  unfold MCP.broadcast_to_process, MCP.first_core, MCP.round, MCP.first_core.
  destruct (getCoreListForProcess g_config proc_id) as [|c cores]; [reflexivity|].
  simpl nth_error. cbv iota.
  unfold MCP.bind, MCP.netSend, MCP.netRecv, MCP.delete, MCP.log. simpl.
  destruct (MCP.take_matching (MCP.mkNetMatch [MCP.MCP_RESPONSE_TYPE]) (MCP.inbound net))
    as [[response rest]|] eqn:Htake.
  - destruct (take_matching_some _ _ _ _ Htake) as (Hm & Hf & Hn).
    exists c, response. simpl. rewrite <- !app_assoc.
    repeat split; try reflexivity; assumption.
  - split; [exact (take_matching_none _ _ Htake)|].
    exists c. split; reflexivity.
Qed.

Lemma broadcast_processes_spec g_config proc_ids : forall pkt net,
  match MCP.broadcast_processes g_config proc_ids pkt net with
  | MCP.Done _ net' =>
      exists responses,
        length responses = length proc_ids /\
        Forall (fun r => MCP.type r = MCP.MCP_RESPONSE_TYPE) responses /\
        Forall (fun p => MCP.first_core g_config p <> None) proc_ids /\
        MCP.trace net' = MCP.trace net ++ MCP.rounds g_config pkt proc_ids responses /\
        filter MCP.is_response (MCP.inbound net) =
          responses ++ filter MCP.is_response (MCP.inbound net') /\
        filter (fun p => negb (MCP.is_response p)) (MCP.inbound net) =
          filter (fun p => negb (MCP.is_response p)) (MCP.inbound net')
  | MCP.Blocked _ =>
      (length (filter MCP.is_response (MCP.inbound net)) < length proc_ids)%nat
  | MCP.FatalError _ => False
  | MCP.Undefined => Exists (fun p => MCP.first_core g_config p = None) proc_ids
  end.
Proof.
  induction proc_ids as [|proc_id proc_ids IH]; intros pkt net.
  - simpl. exists []. simpl. rewrite app_nil_r. repeat split; constructor.
  - simpl. unfold MCP.bind.
    pose proof (broadcast_to_process_spec g_config proc_id pkt net) as Hone.
    destruct (MCP.broadcast_to_process g_config proc_id pkt net)
      as [pkt' net1|net1|msg|]; try exact Hone.
    + destruct Hone as (c & response & Hc & -> & Hr & Ht & Hf & Hn).
      specialize (IH (MCP.set_receiver c pkt) net1).
      destruct (MCP.broadcast_processes g_config proc_ids (MCP.set_receiver c pkt) net1)
        as [[] net'|net'|msg|]; try exact IH.
      * destruct IH as (responses & Hlen & Hall & Hcores & Ht' & Hf' & Hn').
        exists (response :: responses). simpl.
        rewrite rounds_set_receiver in Ht'.
        repeat split.
        -- congruence.
        -- constructor; [apply is_response_type; exact Hr|exact Hall].
        -- constructor; [congruence|exact Hcores].
        -- rewrite Ht', Ht, <- app_assoc. reflexivity.
        -- rewrite Hf, Hf'. reflexivity.
        -- congruence.
      * rewrite Hf. simpl. lia.
      * apply Exists_cons_tl. exact IH.
    + destruct Hone as [Hnone _]. rewrite Hnone. simpl. lia.
    + apply Exists_cons_hd. exact Hone.
Qed.

Lemma rounds_counts g_config pkt proc_ids : forall responses,
  length responses = length proc_ids ->
  Forall (fun p => MCP.first_core g_config p <> None) proc_ids ->
  length (filter MCP.is_send (MCP.rounds g_config pkt proc_ids responses))
    = length proc_ids /\
  length (filter MCP.is_receive (MCP.rounds g_config pkt proc_ids responses))
    = length proc_ids.
Proof.
  induction proc_ids as [|p proc_ids IH]; intros [|r responses] Hlen Hcores;
    simpl in *; try discriminate; [split; reflexivity|].
  inversion Hcores as [|p' ps Hp Hps]; subst.
  destruct (IH responses ltac:(lia) Hps) as [Hs Hr].
  rewrite !filter_app, !length_app, Hs, Hr. unfold MCP.round.
  destruct (MCP.first_core g_config p); [|congruence]. simpl. split; reflexivity.
Qed.

(** C6: [broadcastPacketToProcesses] on a cluster of [P] processes. When
    the call returns, what it has done is, for the processes 0 to [P - 1] in
    this order, a send of the packet with the MCP's core id as its sender to
    the first core of the process, then the receipt of a packet of type
    MCP_RESPONSE_TYPE, then the release of that packet: [P] sends and [P]
    receives, the responses being the [P] oldest that were on their way, and
    no send but the first without the response of the round before. The
    call does not return while fewer than [P] responses arrive. In [run] a
    communicator update is retyped and broadcast so. *)
Theorem broadcast_to_processes_trace g_config pkt net :
  match MCP.broadcastPacketToProcesses g_config pkt net with
  | MCP.Done _ net' =>
      exists responses,
        length responses = getProcessCount g_config /\
        Forall (fun r => MCP.type r = MCP.MCP_RESPONSE_TYPE) responses /\
        Forall (fun p => MCP.first_core g_config p <> None)
               (seq 0 (getProcessCount g_config)) /\
        MCP.trace net' =
          MCP.trace net ++
          MCP.rounds g_config (MCP.set_sender (getMCPCoreNum g_config) pkt)
            (seq 0 (getProcessCount g_config)) responses /\
        length (filter MCP.is_send
                  (MCP.rounds g_config (MCP.set_sender (getMCPCoreNum g_config) pkt)
                     (seq 0 (getProcessCount g_config)) responses))
          = getProcessCount g_config /\
        length (filter MCP.is_receive
                  (MCP.rounds g_config (MCP.set_sender (getMCPCoreNum g_config) pkt)
                     (seq 0 (getProcessCount g_config)) responses))
          = getProcessCount g_config /\
        filter MCP.is_response (MCP.inbound net) =
          responses ++ filter MCP.is_response (MCP.inbound net')
  | MCP.Blocked _ =>
      (length (filter MCP.is_response (MCP.inbound net)) < getProcessCount g_config)%nat
  | MCP.FatalError _ => False
  | MCP.Undefined =>
      Exists (fun p => MCP.first_core g_config p = None) (seq 0 (getProcessCount g_config))
  end /\
  (forall message_type m_finished recv_pkt rest msg_type,
     MCP.take_matching (MCP.mkNetMatch [MCP.MCP_REQUEST_TYPE; MCP.MCP_SYSTEM_TYPE])
       (MCP.inbound net) = Some (recv_pkt, rest) ->
     load_SInt32 (MCP.data recv_pkt) 0 = Some msg_type ->
     message_type msg_type = Some MCP.MCP_MESSAGE_BROADCAST_COMM_MAP_UPDATE ->
     MCP.run g_config message_type m_finished net =
       match MCP.broadcastPacketToProcesses g_config
               (MCP.set_type MCP.SIM_THREAD_UPDATE_COMM_MAP recv_pkt)
               (MCP.mkNetwork rest (MCP.trace net ++ [MCP.Received recv_pkt])) with
       | MCP.Done _ net' =>
           MCP.Done m_finished (MCP.log (MCP.Deleted (MCP.data recv_pkt)) net')
       | MCP.Blocked net' => MCP.Blocked net'
       | MCP.FatalError msg => MCP.FatalError msg
       | MCP.Undefined => MCP.Undefined
       end).
Proof.
  split.
  - unfold MCP.broadcastPacketToProcesses.
    pose proof (broadcast_processes_spec g_config (seq 0 (getProcessCount g_config))
                  (MCP.set_sender (getMCPCoreNum g_config) pkt) net) as H.
    rewrite length_seq in H.
    destruct (MCP.broadcast_processes g_config (seq 0 (getProcessCount g_config))
                (MCP.set_sender (getMCPCoreNum g_config) pkt) net)
      as [[] net'|net'|msg|]; try exact H.
    destruct H as (responses & Hlen & Hall & Hcores & Ht & Hf & _).
    exists responses.
    destruct (rounds_counts g_config (MCP.set_sender (getMCPCoreNum g_config) pkt)
                (seq 0 (getProcessCount g_config)) responses) as [Hs Hr];
      [rewrite length_seq; exact Hlen|exact Hcores|].
    rewrite length_seq in Hs, Hr.
    repeat split; assumption.
  - intros message_type m_finished recv_pkt rest msg_type Htake Hload Hmsg.
    unfold MCP.run, MCP.bind at 1, MCP.netRecv. rewrite Htake, Hload.
    unfold MCP.bind at 1. rewrite Hmsg. unfold MCP.bind at 1.
    destruct (MCP.broadcastPacketToProcesses g_config
                (MCP.set_type MCP.SIM_THREAD_UPDATE_COMM_MAP recv_pkt)
                (MCP.mkNetwork rest (MCP.trace net ++ [MCP.Received recv_pkt])))
      as [[] net'|net'|msg|]; reflexivity.
Qed.

Lemma broadcast_to_processes_trace_example :
  MCP.broadcastPacketToProcesses Example.cfg MCP.update MCP.example_network =
    MCP.Done tt
      (MCP.mkNetwork [MCP.mkNetPacket MCP.MCP_REQUEST_TYPE 5 0 []]
         [ MCP.Sent (MCP.mkNetPacket MCP.MCP_REQUEST_TYPE 0 0 (le_split 4 12));
           MCP.Received (MCP.response 0); MCP.Deleted [];
           MCP.Sent (MCP.mkNetPacket MCP.MCP_REQUEST_TYPE 0 2 (le_split 4 12));
           MCP.Received (MCP.response 2); MCP.Deleted [];
           MCP.Sent (MCP.mkNetPacket MCP.MCP_REQUEST_TYPE 0 4 (le_split 4 12));
           MCP.Received (MCP.response 4); MCP.Deleted [] ]).
Proof. vm_compute. reflexivity. Qed.

Lemma broadcast_to_processes_trace_witness :
  MCP.run Example.cfg MCP.example_message_type false MCP.update_network =
    MCP.Done false
      (MCP.mkNetwork []
         [ MCP.Received (MCP.mkNetPacket MCP.MCP_REQUEST_TYPE 5 0 (le_split 4 12));
           MCP.Sent (MCP.mkNetPacket MCP.SIM_THREAD_UPDATE_COMM_MAP 0 0 (le_split 4 12));
           MCP.Received (MCP.response 0); MCP.Deleted [];
           MCP.Sent (MCP.mkNetPacket MCP.SIM_THREAD_UPDATE_COMM_MAP 0 2 (le_split 4 12));
           MCP.Received (MCP.response 2); MCP.Deleted [];
           MCP.Sent (MCP.mkNetPacket MCP.SIM_THREAD_UPDATE_COMM_MAP 0 4 (le_split 4 12));
           MCP.Received (MCP.response 4); MCP.Deleted [];
           MCP.Deleted (le_split 4 12) ]).
Proof.
  rewrite (proj2 (broadcast_to_processes_trace Example.cfg MCP.update MCP.update_network)
             MCP.example_message_type false
             (MCP.mkNetPacket MCP.MCP_REQUEST_TYPE 5 0 (le_split 4 12))
             [MCP.response 0; MCP.response 2; MCP.response 4] 12
             eq_refl eq_refl eq_refl).
  reflexivity.
Defined.

(** * Further properties of the performance model *)

Lemma total_latency_app a b :
  total_latency (a ++ b) = total_latency a + total_latency b.
Proof. induction a as [|x a IH]; simpl; [reflexivity|]. rewrite IH. lia. Qed.

Lemma wrap_wrap_add3 a b c d e :
  UInt64.wrap (UInt64.wrap (a + b + c) + d + e) = UInt64.wrap (a + (b + d) + (c + e)).
Proof.
  replace (UInt64.wrap (a + b + c) + d + e) with (UInt64.wrap (a + b + c) + (d + e)) by lia.
  rewrite wrap_add_l. f_equal. lia.
Qed.

Lemma wrap_wrap a : UInt64.wrap (UInt64.wrap a) = UInt64.wrap a.
Proof. unfold UInt64.wrap. apply Z.mod_mod. unfold UInt64.modulus. lia. Qed.

Section MagicPepMore.
Variable cfg : Config.

(** When the facts run out before the memory operands, the loop throws and
    every fact that was queued is gone. *)
Lemma operand_loop_starves ops : forall facts c s,
  gated_off cfg s = false ->
  m_dynamic_info_queue s = facts ->
  size facts < DYNAMIC_INFO_QUEUE_CAP ->
  (length facts < length (filter is_memory ops))%nat ->
  Forall2 (fun o info => operand_matches o info = true)
          (firstn (length facts) (filter is_memory ops)) facts ->
  MagicPep.operand_loop cfg ops c s = Throw NotAvailable (set_dynamic_info_queue [] s).
Proof.
  induction ops as [|o ops IH]; intros facts c s Hgate Hq Hcap Hlen Hall.
  - simpl in Hlen. lia.
  - rewrite operand_loop_cons. simpl in Hlen, Hall.
    destruct (is_memory o) eqn:Hmem.
    + destruct facts as [|f facts].
      * rewrite (handleOperand_empty cfg o c s Hmem Hq).
        rewrite <- Hq, set_dynamic_info_queue_same. reflexivity.
      * simpl in Hall, Hlen. inversion Hall as [|o' f' l l' Hm Hall' E1 E2]; subst.
        rewrite (handleOperand_front cfg o c s f facts Hmem Hq) by
          (try rewrite Hq; assumption).
        rewrite Hgate.
        rewrite (IH facts); try assumption; try reflexivity.
        -- rewrite size_cons in Hcap. lia.
        -- lia.
    + rewrite (handleOperand_not_memory cfg o c s Hmem).
      apply (IH facts); assumption.
Qed.

(** With the gate closed the loop pops nothing: every memory operand is
    charged the latency of the fact at the front. *)
Lemma operand_loop_gated ops : forall c s c' s',
  gated_off cfg s = true ->
  MagicPep.operand_loop cfg ops c s = Normal c' s' ->
  s' = s /\
  (filter is_memory ops = [] /\ c' = c \/
   exists front q,
     m_dynamic_info_queue s = front :: q /\
     Forall (fun o => operand_matches o front = true) (filter is_memory ops) /\
     UInt64.wrap c' =
       UInt64.wrap (c + Z.of_nat (length (filter is_memory ops))
                        * memory_info_latency front)).
Proof.
  induction ops as [|o ops IH]; intros c s c' s' Hgate H.
  - inversion H; subst. split; [reflexivity|]. left. split; reflexivity.
  - rewrite operand_loop_cons in H.
    destruct (MagicPep.handleOperand cfg o c s) as [c1 s1|e s1|msg] eqn:Ho;
      try discriminate.
    apply handleOperand_normal_inv in Ho.
    destruct Ho as [(Hmem & -> & ->)|(Hmem & front & q & Hq & _ & Hm & -> & ->)].
    + simpl. rewrite Hmem. apply IH; assumption.
    + rewrite Hgate in H. destruct (IH _ _ _ _ Hgate H) as [-> Hrest].
      split; [reflexivity|]. right. exists front, q. simpl. rewrite Hmem.
      split; [exact Hq|].
      destruct Hrest as [[Hnil ->]|(front' & q' & Hq' & Hall & Hc)].
      * rewrite Hnil. split; [constructor; [exact Hm|constructor]|].
        unfold UInt64.add. rewrite wrap_wrap. f_equal. simpl length. lia.
      * assert (front' = front) by congruence. subst front'.
        split; [constructor; assumption|].
        rewrite Hc. unfold UInt64.add. rewrite wrap_add_l. f_equal.
        simpl length. lia.
Qed.
End MagicPepMore.

(** X1: the facts of an instruction that stalls are lost. With the gate
    open, when the fact queue holds matching facts for the first memory
    operands of an instruction but fewer facts than the instruction has
    memory operands, [handleInstruction] throws
    [DynamicInstructionInfoNotAvailableException] and leaves the fact queue
    empty, with [cycle_count] and the instruction count as they were. *)
Theorem magic_pep_stall_discards_facts cfg i s
    (Hgate : gated_off cfg s = false)
    (Hcap : size (m_dynamic_info_queue s) < DYNAMIC_INFO_QUEUE_CAP)
    (Hfew : (length (m_dynamic_info_queue s) < length (memory_operands i))%nat)
    (Hmatch : Forall2 (fun o info => operand_matches o info = true)
                (firstn (length (m_dynamic_info_queue s)) (memory_operands i))
                (m_dynamic_info_queue s)) :
  exists s',
    MagicPep.handleInstruction cfg i s = Throw NotAvailable s' /\
    m_dynamic_info_queue s' = [] /\
    m_cycle_count s' = m_cycle_count s /\
    m_instruction_count s' = m_instruction_count s /\
    m_current_ins_index s' = m_current_ins_index s /\
    m_basic_block_queue s' = m_basic_block_queue s.
Proof.
  exists (set_dynamic_info_queue [] s). split; [|repeat split].
  rewrite handleInstruction_unfold.
  rewrite (operand_loop_starves cfg (getOperands i) (m_dynamic_info_queue s) 0 s
             Hgate eq_refl Hcap Hfew Hmatch).
  reflexivity.
Qed.

Lemma magic_pep_stall_discards_facts_witness :
  exists s',
    MagicPep.handleInstruction Example.cfg Example.load_pair Example.enabled_model
      = Throw NotAvailable s' /\
    m_dynamic_info_queue Example.enabled_model = [Example.fact 5] /\
    m_dynamic_info_queue s' = [] /\
    m_cycle_count s' = m_cycle_count Example.enabled_model.
Proof.
  destruct (magic_pep_stall_discards_facts Example.cfg Example.load_pair
              Example.enabled_model eq_refl eq_refl
              ltac:(simpl; lia) ltac:(repeat constructor))
    as (s' & H & Hq & Hc & _).
  exists s'. repeat split; assumption.
Defined.

(** X2: with the gate closed, a call of [handleInstruction] that returns
    leaves the fact queue as it was and has charged every memory operand of
    the instruction the latency of the one fact at the front, which matches
    them all. *)
Theorem magic_pep_gated_charges_front cfg i s s'
    (Hgate : gated_off cfg s = true)
    (Hdone : MagicPep.handleInstruction cfg i s = Normal tt s') :
  m_dynamic_info_queue s' = m_dynamic_info_queue s /\
  m_instruction_count s' = UInt64.add (m_instruction_count s) 1 /\
  (memory_operands i = [] /\
   m_cycle_count s' = UInt64.wrap (m_cycle_count s + own_cost i) \/
   exists front q,
     m_dynamic_info_queue s = front :: q /\
     Forall (fun o => operand_matches o front = true) (memory_operands i) /\
     m_cycle_count s' =
       UInt64.wrap (m_cycle_count s
                    + Z.of_nat (length (memory_operands i)) * memory_info_latency front
                    + own_cost i)).
Proof.
  rewrite handleInstruction_unfold in Hdone.
  destruct (MagicPep.operand_loop cfg (getOperands i) 0 s) as [c1 s1|e1 s1|msg] eqn:Hl;
    try discriminate.
  inversion Hdone; subst s'. clear Hdone.
  destruct (operand_loop_gated cfg _ _ _ _ _ Hgate Hl) as [-> Hc].
  split; [reflexivity|]. split; [reflexivity|].
  rewrite cycle_count_charge_instruction.
  destruct Hc as [[Hnil ->]|(front & q & Hq & Hall & Hc)].
  - left. split; [exact Hnil|].
    replace (m_cycle_count s + UInt64.wrap 0 + own_cost i)
      with (UInt64.wrap 0 + (m_cycle_count s + own_cost i)) by lia.
    rewrite wrap_add_l. f_equal.
  - right. exists front, q. split; [exact Hq|]. split; [exact Hall|].
    rewrite Hc.
    match goal with |- UInt64.wrap (?a + UInt64.wrap ?b + ?c) = _ =>
      replace (a + UInt64.wrap b + c) with (UInt64.wrap b + (a + c)) by lia
    end.
    rewrite wrap_add_l. f_equal. unfold memory_operands. lia.
Qed.

Lemma magic_pep_gated_charges_front_witness :
  gated_off Example.cfg (set_enabled false Example.enabled_model) = true /\
  match MagicPep.handleInstruction Example.cfg Example.load_pair
          (set_enabled false Example.enabled_model) with
  | Normal _ s' => m_dynamic_info_queue s' = [Example.fact 5] /\ m_cycle_count s' = 11
  | _ => False
  end.
Proof.
  split; [reflexivity|].
  destruct (MagicPep.handleInstruction Example.cfg Example.load_pair
              (set_enabled false Example.enabled_model)) as [[] s'|e s'|msg] eqn:E;
    [|vm_compute in E; discriminate..].
  destruct (magic_pep_gated_charges_front Example.cfg Example.load_pair
              (set_enabled false Example.enabled_model) s' eq_refl E) as (Hq & _ & [[Hnil _]|(front & q & Hf & _ & Hc)]).
  - discriminate.
  - split; [exact Hq|]. inversion Hf; subst. exact Hc.
Defined.

Lemma total_own_cost_app a b :
  total_own_cost (a ++ b) = total_own_cost a + total_own_cost b.
Proof. induction a as [|x a IH]; simpl; [reflexivity|]. rewrite IH. lia. Qed.

Lemma wrap_in_range z : UInt64.in_range (UInt64.wrap z).
Proof.
  unfold UInt64.in_range, UInt64.wrap. apply Z.mod_pos_bound.
  unfold UInt64.modulus. lia.
Qed.

Section MagicPepDrain.
Variable cfg : Config.

(** What holds of the state once a run of instructions is done with. *)
Let drained (facts rest : list DynamicInstructionInfo) (todo : list Instruction)
    (s s1 : CorePerfModel) : Prop :=
  m_dynamic_info_queue s1 = rest /\
  m_cycle_count s1 =
    UInt64.wrap (m_cycle_count s + total_latency facts + total_own_cost todo) /\
  m_instruction_count s1 =
    UInt64.wrap (m_instruction_count s + Z.of_nat (length todo)) /\
  m_enabled s1 = m_enabled s.

Lemma for_loop_drains todo : forall facts rest s,
  gated_off cfg s = false ->
  UInt64.in_range (m_cycle_count s) ->
  UInt64.in_range (m_instruction_count s) ->
  m_dynamic_info_queue s = facts ++ rest ->
  size (m_dynamic_info_queue s) < DYNAMIC_INFO_QUEUE_CAP ->
  Forall2 (fun o info => operand_matches o info = true)
          (instructions_operands todo) facts ->
  exists s1,
    for_loop (MagicPep.handleInstruction cfg) todo s = Normal tt s1 /\
    drained facts rest todo s s1 /\
    m_current_ins_index s1 = (m_current_ins_index s + length todo)%nat /\
    m_basic_block_queue s1 = m_basic_block_queue s /\
    freed s1 = freed s.
Proof.
  unfold drained.
  induction todo as [|i todo IH]; intros facts rest s Hgate Hcy Hic Hq Hcap Hall.
  - simpl in Hall. inversion Hall; subst. simpl in Hq.
    exists s. simpl. rewrite !Z.add_0_r, !wrap_small by assumption.
    repeat split; auto.
  - simpl in Hall.
    apply Forall2_app_inv_l in Hall.
    destruct Hall as (f1 & f2 & Hall1 & Hall2 & ->).
    rewrite <- app_assoc in Hq.
    rewrite for_loop_cons.
    rewrite (handleInstruction_complete cfg i f1 (f2 ++ rest) s Hgate Hq Hcap Hall1).
    set (s' := charge_instruction (charged f1 0) i
                 (set_dynamic_info_queue (f2 ++ rest) s)).
    assert (Hcap' : size (m_dynamic_info_queue (advance_cursor s'))
                    < DYNAMIC_INFO_QUEUE_CAP).
    { change (m_dynamic_info_queue (advance_cursor s')) with (f2 ++ rest).
      rewrite Hq, size_app in Hcap. pose proof (size_nonneg f1). lia. }
    assert (Hcy' : m_cycle_count (advance_cursor s') =
                   UInt64.wrap (m_cycle_count s + total_latency f1 + own_cost i)).
    { change (m_cycle_count (advance_cursor s')) with (m_cycle_count s').
      unfold s'. rewrite cycle_count_charge_instruction, charged_wrap.
      change (m_cycle_count (set_dynamic_info_queue (f2 ++ rest) s))
        with (m_cycle_count s).
      replace (m_cycle_count s + UInt64.wrap (0 + total_latency f1) + own_cost i)
        with (UInt64.wrap (0 + total_latency f1) + (m_cycle_count s + own_cost i))
        by lia.
      rewrite wrap_add_l. f_equal. lia. }
    assert (Hic' : m_instruction_count (advance_cursor s') =
                   UInt64.wrap (m_instruction_count s + 1)) by reflexivity.
    destruct (IH f2 rest (advance_cursor s')) as (s1 & Hrun & (Hq1 & Hc1 & Hi1 & He1)
                                                   & Hcur & Hbb & Hfr); auto.
    + rewrite Hcy'. apply wrap_in_range.
    + rewrite Hic'. apply wrap_in_range.
    + exists s1. split; [exact Hrun|].
      split; [repeat split|split; [|split]].
      * exact Hq1.
      * rewrite Hc1, Hcy', total_latency_app. simpl total_own_cost.
        apply wrap_wrap_add3.
      * rewrite Hi1, Hic'. rewrite wrap_add_l. f_equal. simpl length. lia.
      * rewrite He1. reflexivity.
      * rewrite Hcur. simpl. lia.
      * rewrite Hbb. reflexivity.
      * rewrite Hfr. reflexivity.
Qed.

Lemma while_loop_drains blocks : forall last facts rest s,
  gated_off cfg s = false ->
  UInt64.in_range (m_cycle_count s) ->
  UInt64.in_range (m_instruction_count s) ->
  m_basic_block_queue s = blocks ++ [last] ->
  m_current_ins_index s = 0%nat ->
  m_dynamic_info_queue s = facts ++ rest ->
  size (m_dynamic_info_queue s) < DYNAMIC_INFO_QUEUE_CAP ->
  Forall2 (fun o info => operand_matches o info = true)
          (instructions_operands (block_instructions blocks)) facts ->
  exists s',
    while_loop (MagicPep.handleInstruction cfg) (blocks ++ [last]) s = Normal tt s' /\
    drained facts rest (block_instructions blocks) s s' /\
    m_current_ins_index s' = 0%nat /\
    m_basic_block_queue s' = [last] /\
    freed s' = freed s ++ deleted_blocks blocks.
Proof.
  unfold drained.
  induction blocks as [|b blocks IH];
    intros last facts rest s Hgate Hcy Hic Hbb Hcur Hq Hcap Hall.
  - simpl in Hall. inversion Hall; subst. simpl in *.
    exists s. unfold deleted_blocks. simpl.
    rewrite !Z.add_0_r, !wrap_small, app_nil_r by assumption.
    repeat split; auto.
  - unfold block_instructions, instructions_operands in Hall. simpl in Hall.
    rewrite flat_map_app in Hall.
    apply Forall2_app_inv_l in Hall.
    destruct Hall as (f1 & f2 & Hall1 & Hall2 & ->).
    rewrite <- app_assoc in Hq.
    simpl app. destruct (blocks ++ [last]) as [|bb' queue] eqn:Hrest;
      [destruct blocks; discriminate|].
    rewrite while_loop_cons, Hcur. simpl skipn.
    destruct (for_loop_drains (instructions b) f1 (f2 ++ rest) s
                Hgate Hcy Hic Hq Hcap Hall1)
      as (s1 & Hrun & (Hq1 & Hc1 & Hi1 & He1) & Hcur1 & Hbb1 & Hfr1).
    rewrite Hrun, retire_block_eq.
    set (s2 := set_current_ins_index 0
                 (set_basic_block_queue (tl (m_basic_block_queue s1))
                    (if isDynamic b then log_freed (FreedBasicBlock b) s1 else s1))).
    assert (Hframe2 : m_dynamic_info_queue s2 = m_dynamic_info_queue s1 /\
                      m_cycle_count s2 = m_cycle_count s1 /\
                      m_instruction_count s2 = m_instruction_count s1 /\
                      m_enabled s2 = m_enabled s1 /\
                      m_basic_block_queue s2 = tl (m_basic_block_queue s1) /\
                      freed s2 = freed s1 ++ deleted_blocks [b])
      by (unfold s2, deleted_blocks; simpl; destruct (isDynamic b); simpl;
          rewrite ?app_nil_r; repeat split).
    destruct Hframe2 as (Hq2 & Hc2 & Hi2 & He2 & Hbb2 & Hfr2).
    rewrite <- Hrest in *.
    destruct (IH last f2 rest s2) as (s' & Hrun' & (Hq' & Hc' & Hi' & He')
                                       & Hcur' & Hbb' & Hfr').
    + unfold gated_off in *. rewrite He2, He1. exact Hgate.
    + rewrite Hc2, Hc1. apply wrap_in_range.
    + rewrite Hi2, Hi1. apply wrap_in_range.
    + rewrite Hbb2, Hbb1, Hbb. reflexivity.
    + reflexivity.
    + rewrite Hq2, Hq1. reflexivity.
    + rewrite Hq2, Hq1. rewrite Hq, size_app in Hcap. pose proof (size_nonneg f1). lia.
    + exact Hall2.
    + exists s'. split; [exact Hrun'|].
      split; [repeat split|split; [|split]].
      * exact Hq'.
      * rewrite Hc', Hc2, Hc1, total_latency_app.
        change (block_instructions (b :: blocks))
          with (instructions b ++ block_instructions blocks).
        rewrite total_own_cost_app. apply wrap_wrap_add3.
      * rewrite Hi', Hi2, Hi1.
        change (block_instructions (b :: blocks))
          with (instructions b ++ block_instructions blocks).
        rewrite wrap_add_l, length_app. f_equal. lia.
      * rewrite He', He2, He1. reflexivity.
      * exact Hcur'.
      * exact Hbb'.
      * rewrite Hfr', Hfr2, Hfr1, <- app_assoc. unfold deleted_blocks. simpl.
        destruct (isDynamic b); reflexivity.
Qed.
End MagicPepDrain.

(** X3: the round trip of blocks and facts. On a model with the gate open
    and the cursor at 0, whose queue holds some blocks and then one last
    block, and whose fact queue starts with one matching fact for each
    memory operand of the instructions of those blocks, in order, and holds
    fewer facts than the cap: [iterate()] returns, the last block is all
    that is left in the queue, the cursor is 0 again, exactly those facts
    are gone, [cycle_count] has grown (modulo [2^64]) by their latencies
    plus the own cost of every instruction, the instruction count by the
    number of instructions, and the dynamic blocks among the retired ones,
    and no others, have been deleted, in queue order. *)
Theorem magic_pep_iterate_drains cfg s blocks last facts rest
    (Hgate : gated_off cfg s = false)
    (Hcycle : UInt64.in_range (m_cycle_count s))
    (Hcount : UInt64.in_range (m_instruction_count s))
    (Hblocks : m_basic_block_queue s = blocks ++ [last])
    (Hcursor : m_current_ins_index s = 0%nat)
    (Hfacts : m_dynamic_info_queue s = facts ++ rest)
    (Hcap : size (m_dynamic_info_queue s) < DYNAMIC_INFO_QUEUE_CAP)
    (Hmatch : Forall2 (fun o info => operand_matches o info = true)
                (instructions_operands (block_instructions blocks)) facts) :
  exists s',
    MagicPep.iterate cfg s = Normal tt s' /\
    m_basic_block_queue s' = [last] /\
    m_current_ins_index s' = 0%nat /\
    m_dynamic_info_queue s' = rest /\
    m_cycle_count s' =
      UInt64.wrap (m_cycle_count s + total_latency facts
                   + total_own_cost (block_instructions blocks)) /\
    m_instruction_count s' =
      UInt64.wrap (m_instruction_count s
                   + Z.of_nat (length (block_instructions blocks))) /\
    freed s' = freed s ++ deleted_blocks blocks.
Proof.
  destruct (while_loop_drains cfg blocks last facts rest s
              Hgate Hcycle Hcount Hblocks Hcursor Hfacts Hcap Hmatch)
    as (s' & Hrun & (Hq & Hc & Hi & _) & Hcur & Hbb & Hfr).
  exists s'. unfold MagicPep.iterate, iterate. rewrite Hblocks.
  repeat split; assumption.
Qed.

Lemma magic_pep_iterate_drains_witness :
  exists s',
    MagicPep.iterate Example.cfg Drain.ready = Normal tt s' /\
    m_basic_block_queue s' = [Example.sentinel] /\
    m_dynamic_info_queue s' = [Example.fact 1] /\
    m_cycle_count s' = 27 /\
    m_instruction_count s' = 4 /\
    freed s' = [FreedBasicBlock (mkBasicBlock true [Example.load_pair])].
Proof.
  destruct (magic_pep_iterate_drains Example.cfg Drain.ready Drain.blocks
              Example.sentinel Drain.facts [Example.fact 1]
              eq_refl
              ltac:(unfold UInt64.in_range, UInt64.modulus; simpl; lia)
              ltac:(unfold UInt64.in_range, UInt64.modulus; simpl; lia)
              eq_refl eq_refl eq_refl eq_refl
              ltac:(repeat constructor))
    as (s' & Hrun & Hbb & _ & Hq & Hc & Hi & Hfr).
  exists s'. repeat split; assumption.
Defined.

(** ** What [iterate] leaves behind *)

Section IterateMore.
Variable handleInstruction : Instruction -> M unit.
Hypothesis Hframe : handler_frame handleInstruction.

(** When the [for] loop is left by the exception, it is the handler that
    threw it, on the instruction the cursor is left at. *)
Lemma for_loop_throw_inv todo : forall s e s',
  for_loop handleInstruction todo s = Throw e s' ->
  exists done i todo' s0,
    todo = done ++ i :: todo' /\
    handleInstruction i s0 = Throw NotAvailable s' /\
    m_current_ins_index s' = (m_current_ins_index s + length done)%nat /\
    m_basic_block_queue s' = m_basic_block_queue s.
Proof.
  induction todo as [|i todo IH]; intros s e s' H.
  - discriminate.
  - rewrite for_loop_cons in H. pose proof (Hframe i s) as Hf.
    destruct (handleInstruction i s) as [[] s1|[] s1|msg] eqn:Hh; try discriminate.
    + destruct Hf as [Hq Hc].
      destruct (IH _ _ _ H) as (done & i' & todo' & s0 & -> & Hthrow & Hcur & Hbb).
      exists (i :: done), i', todo', s0. simpl in *.
      repeat split; [exact Hthrow|lia|congruence].
    + destruct Hf as [Hq Hc].
      destruct (IH _ _ _ H) as (done & i' & todo' & s0 & -> & Hthrow & Hcur & Hbb).
      exists (i :: done), i', todo', s0. simpl in *.
      repeat split; [exact Hthrow|lia|congruence].
    + inversion H; subst. destruct Hf as [Hq Hc].
      exists [], i, todo, s. simpl. repeat split; [exact Hh|lia|exact Hq].
Qed.

Lemma skipn_app_nth_error {A} (l : list A) : forall n done x rest,
  skipn n l = done ++ x :: rest -> nth_error l (n + length done) = Some x.
Proof.
  induction l as [|y l IH]; intros [|n] done x rest H; simpl in *.
  - destruct done; discriminate.
  - destruct done; discriminate.
  - rewrite H. rewrite nth_error_app2 by lia. rewrite Nat.sub_diag. reflexivity.
  - apply (IH n done x rest). exact H.
Qed.

(** [iterate] returns either with at most one block queued or stalled: on
    an instruction of the head block, under the cursor, on which the
    handler has just thrown. *)
Lemma while_loop_rests queue : forall s s',
  m_basic_block_queue s = queue ->
  while_loop handleInstruction queue s = Normal tt s' ->
  (length (m_basic_block_queue s') <= 1)%nat \/
  exists bb rest i s0,
    m_basic_block_queue s' = bb :: rest /\ rest <> [] /\
    nth_error (instructions bb) (m_current_ins_index s') = Some i /\
    handleInstruction i s0 = Throw NotAvailable s'.
Proof.
  induction queue as [|current_bb queue IH]; intros s s' Hq H.
  - inversion H; subst. left. rewrite Hq. simpl. lia.
  - destruct queue as [|bb' queue].
    + inversion H; subst. left. rewrite Hq. simpl. lia.
    + rewrite while_loop_cons in H.
      pose proof (for_loop_frame handleInstruction Hframe
                    (skipn (m_current_ins_index s) (instructions current_bb)) s) as Hf.
      destruct (for_loop handleInstruction
                  (skipn (m_current_ins_index s) (instructions current_bb)) s)
        as [[] s1|[] s1|msg] eqn:Hfor; try discriminate.
      * rewrite retire_block_eq in H. eapply IH; [|exact H].
        destruct Hf as [Hq1 _]. simpl.
        destruct (isDynamic current_bb); simpl; rewrite Hq1, Hq; reflexivity.
      * inversion H; subst s1. clear H.
        destruct (for_loop_throw_inv _ _ _ _ Hfor)
          as (done & i & todo' & s0 & Hskip & Hthrow & Hcur & Hbb).
        right. exists current_bb, (bb' :: queue), i, s0.
        rewrite Hbb, Hq, Hcur. repeat split; try assumption; [discriminate|].
        eapply skipn_app_nth_error. exact Hskip.
Qed.

(** A handler that never stalls lets the [for] loop run to its end. *)
Lemma for_loop_never_stalls (Hnever : never_stalls handleInstruction) todo : forall s,
  exists s1,
    for_loop handleInstruction todo s = Normal tt s1 /\
    m_basic_block_queue s1 = m_basic_block_queue s.
Proof.
  induction todo as [|i todo IH]; intros s.
  - exists s. split; reflexivity.
  - rewrite for_loop_cons. pose proof (Hframe i s) as Hf. pose proof (Hnever i s) as Hn.
    destruct (handleInstruction i s) as [[] s1|[] s1|msg]; try contradiction;
      destruct Hf as [Hq _]; destruct (IH (advance_cursor s1)) as (s2 & Hrun & Hq2);
      exists s2; (split; [exact Hrun|]); rewrite Hq2; exact Hq.
Qed.

Lemma while_loop_never_stalls (Hnever : never_stalls handleInstruction) blocks :
  forall last s,
    m_basic_block_queue s = blocks ++ [last] ->
    exists s',
      while_loop handleInstruction (blocks ++ [last]) s = Normal tt s' /\
      m_basic_block_queue s' = [last] /\
      (blocks <> [] -> m_current_ins_index s' = 0%nat).
Proof.
  induction blocks as [|b blocks IH]; intros last s Hq.
  - exists s. simpl. repeat split; [exact Hq|congruence].
  - simpl app. destruct (blocks ++ [last]) as [|bb' queue] eqn:Hrest;
      [destruct blocks; discriminate|].
    rewrite while_loop_cons.
    destruct (for_loop_never_stalls Hnever
                (skipn (m_current_ins_index s) (instructions b)) s) as (s1 & Hrun & Hq1).
    rewrite Hrun, retire_block_eq. rewrite <- Hrest in *.
    match goal with |- context [while_loop _ _ ?s2] =>
      destruct (IH last s2) as (s' & Hrun' & Hbb' & Hcur')
    end.
    + simpl. destruct (isDynamic b); simpl; rewrite Hq1, Hq; reflexivity.
    + exists s'. split; [exact Hrun'|]. split; [exact Hbb'|]. intros _.
      destruct blocks as [|b2 blocks].
      * simpl in Hrun'. inversion Hrun'. reflexivity.
      * apply Hcur'. discriminate.
Qed.
End IterateMore.

Lemma operand_loop_no_facts cfg ops : forall c s,
  m_dynamic_info_queue s = [] ->
  filter is_memory ops <> [] ->
  MagicPep.operand_loop cfg ops c s = Throw NotAvailable s.
Proof.
  induction ops as [|o ops IH]; intros c s Hq Hmem.
  - simpl in Hmem. congruence.
  - rewrite operand_loop_cons. simpl in Hmem.
    destruct (is_memory o) eqn:Ho.
    + rewrite (handleOperand_empty cfg o c s Ho Hq). reflexivity.
    + rewrite (handleOperand_not_memory cfg o c s Ho). apply IH; assumption.
Qed.

(** A stall of the magic PEP handler is stable: on the state it leaves, the
    handler stalls again and changes nothing. *)
Lemma magic_pep_stall_stable cfg i s0 s' :
  MagicPep.handleInstruction cfg i s0 = Throw NotAvailable s' ->
  MagicPep.handleInstruction cfg i s' = Throw NotAvailable s'.
Proof.
  intros H. apply handleInstruction_throw_inv in H. destruct H as (_ & -> & Hlen).
  rewrite handleInstruction_unfold, operand_loop_no_facts; [reflexivity|reflexivity|].
  unfold memory_operands in Hlen.
  destruct (filter is_memory (getOperands i)); [simpl in Hlen; lia|discriminate].
Qed.

(** X4: [iterate()] of the magic PEP model is idempotent: called again on
    the state it has returned, with no block and no fact queued in between,
    it returns that state unchanged. *)
Theorem magic_pep_iterate_idempotent cfg s s'
    (Hrun : MagicPep.iterate cfg s = Normal tt s') :
  MagicPep.iterate cfg s' = Normal tt s'.
Proof.
  unfold MagicPep.iterate in *.
  destruct (while_loop_rests (MagicPep.handleInstruction cfg)
              (magic_pep_handler_frame cfg) (m_basic_block_queue s) s s' eq_refl Hrun)
    as [Hshort|(bb & rest & i & s0 & Hq & Hne & Hnth & Hthrow)].
  - unfold iterate. apply while_loop_sentinel. exact Hshort.
  - eapply iterate_stalls; eauto. eapply magic_pep_stall_stable. exact Hthrow.
Qed.

Lemma magic_pep_iterate_idempotent_witness :
  MagicPep.iterate Example.cfg Scenario.queued = Normal tt Scenario.at_load /\
  MagicPep.iterate Example.cfg Scenario.at_load = Normal tt Scenario.at_load.
Proof.
  assert (H : MagicPep.iterate Example.cfg Scenario.queued = Normal tt Scenario.at_load)
    by reflexivity.
  split; [exact H|].
  exact (magic_pep_iterate_idempotent Example.cfg Scenario.queued Scenario.at_load H).
Defined.

(** X5: with a handler that never stalls and never fails an assertion, such
    as one that aborts every instruction, [iterate()] retires every block
    but the last: it returns with the last block alone in the queue, and
    with the cursor at 0 if it has retired a block. *)
Theorem iterate_never_stalls_drains handleInstruction s blocks last
    (Hframe : handler_frame handleInstruction)
    (Hnever : never_stalls handleInstruction)
    (Hblocks : m_basic_block_queue s = blocks ++ [last]) :
  exists s',
    iterate handleInstruction s = Normal tt s' /\
    m_basic_block_queue s' = [last] /\
    (blocks <> [] -> m_current_ins_index s' = 0%nat).
Proof.
  unfold iterate. rewrite Hblocks.
  apply while_loop_never_stalls; assumption.
Qed.

Lemma aborting_handler_frame : handler_frame aborting_handler.
Proof. intros i s. simpl. split; reflexivity. Qed.

Lemma aborting_handler_never_stalls : never_stalls aborting_handler.
Proof. intros i s. exact I. Qed.

Lemma iterate_never_stalls_drains_witness :
  handler_frame aborting_handler /\
  never_stalls aborting_handler /\
  exists s',
    iterate aborting_handler Drain.ready = Normal tt s' /\
    m_basic_block_queue s' = [Example.sentinel] /\
    m_cycle_count s' = 0.
Proof.
  split; [exact aborting_handler_frame|]. split; [exact aborting_handler_never_stalls|].
  destruct (iterate_never_stalls_drains aborting_handler Drain.ready Drain.blocks
              Example.sentinel aborting_handler_frame aborting_handler_never_stalls
              eq_refl) as (s' & Hrun & Hbb & _).
  exists s'. split; [exact Hrun|]. split; [exact Hbb|].
  vm_compute in Hrun. inversion Hrun. reflexivity.
Defined.

(** ** A frequency change with no time on the clock *)

Lemma Float32_mul_nan x : Float32.mul S754_nan x = S754_nan.
Proof. destruct x; reflexivity. Qed.

Lemma Float32_add_nan x : Float32.add S754_nan x = S754_nan.
Proof. destruct x; reflexivity. Qed.

Lemma Float32_div_nan x : Float32.div S754_nan x = S754_nan.
Proof. destruct x; reflexivity. Qed.

Lemma Float32_div_by_nan x : Float32.div x S754_nan = S754_nan.
Proof. destruct x; reflexivity. Qed.

Lemma Float32_mul_zero_nan_or_zero x b :
  is_nan (Float32.mul x (S754_zero b)) = true \/
  is_zero (Float32.mul x (S754_zero b)) = true.
Proof. destruct x; simpl; auto. Qed.

Lemma Float32_add_zero_zero x y :
  is_zero x = true -> is_zero y = true -> is_zero (Float32.add x y) = true.
Proof.
  destruct x as [bx| | |], y as [by'| | |]; try discriminate. intros _ _.
  destruct bx, by'; reflexivity.
Qed.

Lemma Float32_div_zero_zero x y :
  is_zero x = true -> is_zero y = true -> Float32.div x y = S754_nan.
Proof.
  destruct x as [bx| | |], y as [by'| | |]; try discriminate. reflexivity.
Qed.

Lemma Float32_div_zero_any b f :
  is_nan (Float32.div (S754_zero b) f) = true \/
  is_zero (Float32.div (S754_zero b) f) = true.
Proof. destruct f; simpl; auto. Qed.

Lemma Float32_add_zero_nan x :
  is_zero x = true -> Float32.add x S754_nan = S754_nan.
Proof. destruct x; try discriminate. reflexivity. Qed.

Lemma is_nan_eq x : is_nan x = true -> x = S754_nan.
Proof. destruct x; try discriminate. reflexivity. Qed.

(** X6: [recomputeAverageFrequency()] on a model on which no cycle has
    elapsed since the checkpoint and whose [total_time] is zero, as on a
    newly constructed one, divides zero by zero: [average_frequency] becomes
    NaN, whatever the frequency is. And an [average_frequency] that is NaN
    is still NaN after every later [recomputeAverageFrequency()] and every
    later frequency change. *)
Theorem average_frequency_nan s frequency
    (Hbad : is_nan (m_average_frequency s) = true \/
            (UInt64.sub (m_cycle_count s) (m_checkpointed_cycle_count s) = 0 /\
             is_zero (m_total_time s) = true)) :
  exists s1 s2,
    recomputeAverageFrequency s = Normal tt s1 /\
    updateInternalVariablesOnFrequencyChange frequency s = Normal tt s2 /\
    is_nan (m_average_frequency s1) = true /\
    is_nan (m_average_frequency s2) = true.
Proof.
  eexists. eexists. split; [reflexivity|]. split; [reflexivity|].
  cbn [m_average_frequency set_frequency set_checkpointed_cycle_count
       set_total_time set_average_frequency].
  assert (H : is_nan
           (Float32.div
              (Float32.add (Float32.mul (m_average_frequency s) (m_total_time s))
                 (Float32.of_UInt64
                    (UInt64.sub (m_cycle_count s) (m_checkpointed_cycle_count s))))
              (Float32.add (m_total_time s)
                 (Float32.div
                    (Float32.of_UInt64
                       (UInt64.sub (m_cycle_count s) (m_checkpointed_cycle_count s)))
                    (m_frequency s)))) = true).
  { destruct Hbad as [Hnan|[Hsub Hzero]].
    - rewrite (is_nan_eq _ Hnan), Float32_mul_nan, Float32_add_nan, Float32_div_nan.
      reflexivity.
    - rewrite Hsub. change (Float32.of_UInt64 0) with (S754_zero false).
      destruct (m_total_time s) as [bt| | |] eqn:Ht; try discriminate.
      assert (Hnum : is_nan (Float32.add (Float32.mul (m_average_frequency s)
                                            (S754_zero bt)) (S754_zero false)) = true \/
                     is_zero (Float32.add (Float32.mul (m_average_frequency s)
                                             (S754_zero bt)) (S754_zero false)) = true).
      { destruct (Float32_mul_zero_nan_or_zero (m_average_frequency s) bt) as [Hn|Hz].
        - left. rewrite (is_nan_eq _ Hn), Float32_add_nan. reflexivity.
        - right. apply Float32_add_zero_zero; [exact Hz|reflexivity]. }
      destruct (Float32_div_zero_any false (m_frequency s)) as [Hn|Hz].
      + rewrite (is_nan_eq _ Hn), (Float32_add_zero_nan (S754_zero bt) eq_refl),
          Float32_div_by_nan. reflexivity.
      + pose proof (Float32_add_zero_zero (S754_zero bt) _ eq_refl Hz) as Hden.
        destruct Hnum as [Hn'|Hz'].
        * rewrite (is_nan_eq _ Hn'), Float32_div_nan. reflexivity.
        * rewrite (Float32_div_zero_zero _ _ Hz' Hden). reflexivity. }
  split; exact H.
Qed.

Lemma average_frequency_nan_witness :
  exists s2,
    updateInternalVariablesOnFrequencyChange Example.two (construct Example.one)
      = Normal tt s2 /\
    m_average_frequency s2 = S754_nan.
Proof.
  destruct (average_frequency_nan (construct Example.one) Example.two
              (or_intror (conj eq_refl eq_refl)))
    as (s1 & s2 & _ & Hrun & _ & Hnan).
  exists s2. split; [exact Hrun|]. apply is_nan_eq. exact Hnan.
Defined.

(** * Further properties of the LCP *)

Lemma signed32_wrap z : LCPRun.in_SInt32 z -> signed32 (z mod 2 ^ 32) = z.
Proof.
  unfold LCPRun.in_SInt32, signed32. intros H.
  destruct (Z.ltb_spec z 0) as [Hneg|Hpos].
  - rewrite <- (Z_mod_plus_full z 1 (2 ^ 32)).
    rewrite Z.mod_small by lia.
    destruct (Z.ltb_spec (z + 1 * 2 ^ 32) (2 ^ 31)); lia.
  - rewrite Z.mod_small by lia.
    destruct (Z.ltb_spec z (2 ^ 31)); lia.
Qed.

Lemma load_SInt32_here z rest :
  LCPRun.in_SInt32 z -> load_SInt32 (le_split 4 z ++ rest) 0 = Some z.
Proof.
  intros H. unfold load_SInt32, load_UInt32.
  pose proof (bytes_at_here (le_split 4 z) rest) as Hhere.
  rewrite length_le_split in Hhere. rewrite Hhere. simpl option_map.
  rewrite le_combine_split. f_equal.
  change (2 ^ (Z.of_nat 4 * 8)) with (2 ^ 32). apply signed32_wrap. exact H.
Qed.

Lemma released_app a b : LCPRun.released (a ++ b) = LCPRun.released a ++ LCPRun.released b.
Proof. unfold LCPRun.released. apply flat_map_app. Qed.

Lemma calls_app a b : LCPRun.calls (a ++ b) = LCPRun.calls a ++ LCPRun.calls b.
Proof. unfold LCPRun.calls. apply filter_app. Qed.

(** What a call of [processPacket] that returns has done. *)
Lemma processPacket_returned_inv message_type pkt s s' :
  LCP.processPacket message_type pkt s = LCP.Returned s' ->
  LCP.m_finished s' = LCP.m_finished s || LCPRun.is_quit message_type pkt /\
  exists made,
    (length made <= 1)%nat /\
    LCPRun.calls made = made /\
    LCP.events s' = LCP.events s ++ made ++ [LCP.deleted pkt].
Proof.
  unfold LCP.processPacket, LCPRun.is_quit, LCPRun.message_of.
  destruct (load_SInt32 pkt 0) as [msg_type|]; [|simpl; discriminate].
  destruct (message_type msg_type) as [[]|]; try discriminate;
    try (intros H; inversion H; subst; simpl; rewrite ?orb_false_r, ?orb_true_r;
         split; [reflexivity|];
         first [ exists []; simpl; repeat split; solve [reflexivity | lia]
               | eexists [_]; simpl; rewrite <- app_assoc;
                 repeat split; solve [reflexivity | lia] ]).
  - unfold LCP.updateCommId.
    destruct (load_SInt32 pkt (0 + sizeof_SInt32)) as [comm_id|]; [|simpl; discriminate].
    destruct (load_SInt32 pkt (0 + sizeof_SInt32 + sizeof_SInt32)) as [core_id|];
      [|simpl; discriminate].
    intros H; inversion H; subst; simpl. rewrite orb_false_r. split; [reflexivity|].
    eexists [_]. simpl. rewrite <- app_assoc. repeat split; solve [reflexivity | lia].
  - destruct (load_SInt32 pkt (0 + sizeof_SInt32)) as [thread_id|]; [|simpl; discriminate].
    destruct (load_UInt64 pkt (ptr_add sizeof_UInt64 (0 + sizeof_SInt32) 4))
      as [cycle_count|]; [|simpl; discriminate].
    intros H; inversion H; subst; simpl. rewrite orb_false_r. split; [reflexivity|].
    eexists [_]. simpl. rewrite <- app_assoc. repeat split; solve [reflexivity | lia].
Qed.

(** X7: a call of [processPacket] that returns has made at most one call
    into the simulator, the thread manager or the configuration and has then
    released the packet, once; [m_finished] is set by a QUIT packet and is
    never cleared. *)
Theorem processPacket_releases_once message_type pkt s s'
    (Hret : LCP.processPacket message_type pkt s = LCP.Returned s') :
  LCPRun.released (LCP.events s') = LCPRun.released (LCP.events s) ++ [pkt] /\
  (exists made,
     (length made <= 1)%nat /\
     LCPRun.calls (LCP.events s') = LCPRun.calls (LCP.events s) ++ made /\
     LCP.events s' = LCP.events s ++ made ++ [LCP.deleted pkt]) /\
  LCP.m_finished s' = LCP.m_finished s || LCPRun.is_quit message_type pkt.
Proof.
  destruct (processPacket_returned_inv _ _ _ _ Hret)
    as (Hfin & made & Hlen & Hcalls & Hev).
  assert (Hrel : LCPRun.released made = []).
  { destruct made as [|e [|e' made]]; simpl in *; try lia; [reflexivity|].
    destruct e; simpl in *; try reflexivity. discriminate. }
  split; [|split; [|exact Hfin]].
  - rewrite Hev, !released_app, Hrel. reflexivity.
  - exists made. split; [exact Hlen|]. split; [|exact Hev].
    rewrite Hev, !calls_app, Hcalls. simpl. rewrite app_nil_r. reflexivity.
Qed.

Lemma processPacket_releases_once_witness :
  exists s',
    LCP.processPacket LCP.example_message_type (LCPRun.finish_packet 0) LCP.idle
      = LCP.Returned s' /\
    LCPRun.released (LCP.events s') = [LCPRun.finish_packet 0] /\
    LCP.m_finished s' = true.
Proof.
  eexists. split; [reflexivity|].
  destruct (processPacket_releases_once LCP.example_message_type
              (LCPRun.finish_packet 0) LCP.idle _ eq_refl) as (Hrel & _ & Hfin).
  split; [exact Hrel|exact Hfin].
Defined.

(** X8: the round trip of a communicator update. A COMMID_UPDATE packet
    that carries the two signed 32-bit integers [comm_id] and [core_id]
    after its tag, negative ones included and whatever follows them, makes
    [processPacket] call [updateCommToCoreMap(comm_id, core_id)] and release
    the packet; when fewer than eight bytes follow the tag the read runs
    past the end of the packet. *)
Theorem commid_update_round_trip message_type tag comm_id core_id tail s
    (Htag : LCPRun.in_SInt32 tag)
    (Hupdate : message_type tag = Some LCP.LCP_MESSAGE_COMMID_UPDATE)
    (Hcomm : LCPRun.in_SInt32 comm_id)
    (Hcore : LCPRun.in_SInt32 core_id) :
  (let pkt := LCPRun.commid_update_packet tag comm_id core_id ++ tail in
   LCP.processPacket message_type pkt s =
     LCP.Returned
       (LCP.emit (LCP.deleted pkt)
          (LCP.emit (LCP.updateCommToCoreMap comm_id core_id) s))) /\
  (forall payload,
     (length payload < 8)%nat ->
     LCP.processPacket message_type (le_split 4 tag ++ payload) s = LCP.Undefined).
Proof.
  split.
  - intros pkt. unfold LCP.processPacket, LCP.updateCommId.
    assert (Hpkt : pkt = le_split 4 tag ++ (le_split 4 comm_id ++ le_split 4 core_id ++ tail))
      by (unfold pkt, LCPRun.commid_update_packet; rewrite <- !app_assoc; reflexivity).
    rewrite Hpkt at 1. rewrite (load_SInt32_here tag _ Htag), Hupdate.
    assert (H1 : load_SInt32 pkt (0 + sizeof_SInt32) = Some comm_id).
    { rewrite Hpkt.
      change (0 + sizeof_SInt32)%nat with (length (le_split 4 tag) + 0)%nat.
      unfold load_SInt32, load_UInt32. rewrite bytes_at_prefix.
      exact (load_SInt32_here comm_id _ Hcomm). }
    assert (H2 : load_SInt32 pkt (0 + sizeof_SInt32 + sizeof_SInt32) = Some core_id).
    { rewrite Hpkt, app_assoc.
      change (0 + sizeof_SInt32 + sizeof_SInt32)%nat
        with (length (le_split 4 tag ++ le_split 4 comm_id) + 0)%nat.
      unfold load_SInt32, load_UInt32. rewrite bytes_at_prefix.
      exact (load_SInt32_here core_id _ Hcore). }
    rewrite H1, H2. reflexivity.
  - intros payload Hshort. unfold LCP.processPacket, LCP.updateCommId.
    rewrite (load_SInt32_here tag _ Htag), Hupdate.
    assert (H2 : load_SInt32 (le_split 4 tag ++ payload) (0 + sizeof_SInt32 + sizeof_SInt32)
                 = None).
    { unfold load_SInt32, load_UInt32. rewrite bytes_at_short; [reflexivity|lia|].
      rewrite length_app, length_le_split. unfold sizeof_SInt32. lia. }
    rewrite H2.
    destruct (load_SInt32 (le_split 4 tag ++ payload) (0 + sizeof_SInt32)); reflexivity.
Qed.

Lemma commid_update_round_trip_witness :
  LCP.processPacket LCP.example_message_type
    (LCPRun.commid_update_packet 1 3 (-1) ++ []) LCP.idle =
    LCP.Returned
      (LCP.emit (LCP.deleted (LCPRun.commid_update_packet 1 3 (-1) ++ []))
         (LCP.emit (LCP.updateCommToCoreMap 3 (-1)) LCP.idle)).
Proof.
  apply (commid_update_round_trip LCP.example_message_type 1 3 (-1) [] LCP.idle);
    unfold LCPRun.in_SInt32; try reflexivity; lia.
Defined.

(** ** The loop *)

Lemma run_finished message_type incoming s :
  LCP.m_finished s = true -> LCPRun.run message_type incoming s = LCPRun.Stopped s incoming.
Proof. intros H. destruct incoming; simpl; rewrite H; reflexivity. Qed.

Lemma run_cons message_type pkt incoming s :
  LCP.m_finished s = false ->
  LCPRun.run message_type (pkt :: incoming) s =
    match LCP.processPacket message_type pkt s with
    | LCP.Returned s' => LCPRun.run message_type incoming s'
    | LCP.FatalError msg => LCPRun.FatalError msg
    | LCP.Undefined => LCPRun.Undefined
    end.
Proof. intros H. simpl. rewrite H. reflexivity. Qed.

(** Whether [processPacket] fails on a packet, and how, does not depend on
    the state of the LCP. *)
Lemma processPacket_failure message_type pkt s :
  match LCP.processPacket message_type pkt s with
  | LCP.Returned _ => True
  | failure => forall s0, LCP.processPacket message_type pkt s0 = failure
  end.
Proof.
  unfold LCP.processPacket, LCP.updateCommId.
  destruct (load_SInt32 pkt 0) as [msg_type|]; [|reflexivity].
  destruct (message_type msg_type) as [[]|]; try exact I; try reflexivity.
  - destruct (load_SInt32 pkt (0 + sizeof_SInt32)) as [comm_id|];
      [|intros s0; reflexivity].
    destruct (load_SInt32 pkt (0 + sizeof_SInt32 + sizeof_SInt32)) as [core_id|];
      [exact I|intros s0; reflexivity].
  - destruct (load_SInt32 pkt (0 + sizeof_SInt32)) as [thread_id|];
      [|intros s0; reflexivity].
    destruct (load_UInt64 pkt (ptr_add sizeof_UInt64 (0 + sizeof_SInt32) 4))
      as [cycle_count|]; [exact I|intros s0; reflexivity].
Qed.

(** X9: the loop of the LCP, started with [m_finished] false. When it ends,
    the packets it has read are those up to the first QUIT packet, none of
    them a QUIT before that one; each has been released once, in arrival
    order; and the packets behind the QUIT are unread. While no QUIT has
    come and no packet has failed, it has read and released everything and
    waits in [recv()]. *)
Theorem lcp_run_reads_up_to_quit message_type incoming : forall s
    (Hrunning : LCP.m_finished s = false),
  match LCPRun.run message_type incoming s with
  | LCPRun.Stopped s' unread =>
      exists before quit,
        incoming = before ++ quit :: unread /\
        LCPRun.is_quit message_type quit = true /\
        Forall (fun pkt => LCPRun.is_quit message_type pkt = false) before /\
        LCP.m_finished s' = true /\
        LCPRun.released (LCP.events s') =
          LCPRun.released (LCP.events s) ++ before ++ [quit]
  | LCPRun.Waiting s' =>
      Forall (fun pkt => LCPRun.is_quit message_type pkt = false) incoming /\
      LCP.m_finished s' = false /\
      LCPRun.released (LCP.events s') = LCPRun.released (LCP.events s) ++ incoming
  | LCPRun.FatalError _ | LCPRun.Undefined =>
      exists before pkt after,
        incoming = before ++ pkt :: after /\
        Forall (fun pkt => LCPRun.is_quit message_type pkt = false) before /\
        forall s0 s', LCP.processPacket message_type pkt s0 <> LCP.Returned s'
  end.
Proof.
  induction incoming as [|pkt incoming IH]; intros s Hrunning.
  - simpl. rewrite Hrunning. split; [constructor|]. split; [exact Hrunning|].
    rewrite app_nil_r. reflexivity.
  - rewrite run_cons by exact Hrunning.
    destruct (LCP.processPacket message_type pkt s) as [s1|msg|] eqn:Hp.
    + destruct (processPacket_returned_inv _ _ _ _ Hp) as (Hfin & made & Hlen & Hcalls & Hev).
      assert (Hrel : LCPRun.released (LCP.events s1)
                     = LCPRun.released (LCP.events s) ++ [pkt]).
      { rewrite Hev, !released_app.
        replace (LCPRun.released made) with (@nil Bytes); [reflexivity|].
        destruct made as [|e [|e' made]]; simpl in *; try lia; [reflexivity|].
        destruct e; simpl in *; try reflexivity. discriminate. }
      rewrite Hrunning in Hfin. simpl in Hfin.
      destruct (LCPRun.is_quit message_type pkt) eqn:Hquit.
      * rewrite (run_finished message_type incoming s1 Hfin).
        exists [], pkt. simpl. repeat split; [exact Hquit|constructor|exact Hfin|exact Hrel].
      * specialize (IH s1 Hfin).
        destruct (LCPRun.run message_type incoming s1) as [s' unread|s'|msg|].
        -- destruct IH as (before & quit & -> & Hq & Hall & Hfin' & Hrel').
           exists (pkt :: before), quit. simpl.
           repeat split; [exact Hq|constructor; assumption|exact Hfin'|].
           rewrite Hrel', Hrel, <- app_assoc. reflexivity.
        -- destruct IH as (Hall & Hfin' & Hrel').
           repeat split; [constructor; assumption|exact Hfin'|].
           rewrite Hrel', Hrel, <- app_assoc. reflexivity.
        -- destruct IH as (before & bad & after & -> & Hall & Hbad).
           exists (pkt :: before), bad, after.
           repeat split; [constructor; assumption|exact Hbad].
        -- destruct IH as (before & bad & after & -> & Hall & Hbad).
           exists (pkt :: before), bad, after.
           repeat split; [constructor; assumption|exact Hbad].
    + exists [], pkt, incoming. repeat split; [constructor|].
      intros s0 s' Hret. pose proof (processPacket_failure message_type pkt s) as Hf.
      rewrite Hp in Hf. rewrite Hf in Hret. discriminate.
    + exists [], pkt, incoming. repeat split; [constructor|].
      intros s0 s' Hret. pose proof (processPacket_failure message_type pkt s) as Hf.
      rewrite Hp in Hf. rewrite Hf in Hret. discriminate.
Qed.

Lemma lcp_run_reads_up_to_quit_witness :
  LCP.m_finished LCP.idle = false /\
  exists s',
    LCPRun.run LCP.example_message_type LCPExample.incoming LCP.idle =
      LCPRun.Stopped s' [le_split 4 8 ++ le_split 8 0] /\
    LCPRun.released (LCP.events s') =
      [LCPRun.commid_update_packet 1 3 (-1); LCPRun.finish_packet 0] /\
    LCPRun.calls (LCP.events s') = [LCP.updateCommToCoreMap 3 (-1)].
Proof.
  split; [reflexivity|].
  pose proof (lcp_run_reads_up_to_quit LCP.example_message_type LCPExample.incoming
                LCP.idle eq_refl) as H.
  destruct (LCPRun.run LCP.example_message_type LCPExample.incoming LCP.idle)
    as [s' unread| | |] eqn:E; vm_compute in E; try discriminate.
  exists s'. inversion E; subst. repeat split.
Defined.

Lemma run_app_waiting message_type incoming : forall s s1 more,
  LCPRun.run message_type incoming s = LCPRun.Waiting s1 ->
  LCPRun.run message_type (incoming ++ more) s = LCPRun.run message_type more s1.
Proof.
  induction incoming as [|pkt incoming IH]; intros s s1 more H.
  - simpl in H. destruct (LCP.m_finished s) eqn:Hf; [discriminate|].
    inversion H; subst. reflexivity.
  - simpl in *. destruct (LCP.m_finished s); [discriminate|].
    destruct (LCP.processPacket message_type pkt s); try discriminate.
    apply IH. exact H.
Qed.

Lemma run_waiting_running message_type incoming : forall s s1,
  LCPRun.run message_type incoming s = LCPRun.Waiting s1 -> LCP.m_finished s1 = false.
Proof.
  induction incoming as [|pkt incoming IH]; intros s s1 H; simpl in H;
    destruct (LCP.m_finished s) eqn:Hf; try discriminate.
  - inversion H; subst. exact Hf.
  - destruct (LCP.processPacket message_type pkt s); try discriminate.
    eapply IH. exact H.
Qed.

(** X10: [finish] ends the loop. When the loop has got through the packets
    that came before and waits, the packet [finish] sends, four bytes that
    hold LCP_MESSAGE_QUIT, makes it set [m_finished], release that packet
    and end, with every packet that comes later unread. *)
Theorem lcp_finish_ends_run message_type quit before after s s1
    (Hquit : message_type quit = Some LCP.LCP_MESSAGE_QUIT)
    (Hrange : LCPRun.in_SInt32 quit)
    (Hbefore : LCPRun.run message_type before s = LCPRun.Waiting s1) :
  LCPRun.run message_type (before ++ LCPRun.finish_packet quit :: after) s =
    LCPRun.Stopped
      (LCP.mkState true (LCP.events s1 ++ [LCP.deleted (LCPRun.finish_packet quit)]))
      after.
Proof.
  rewrite (run_app_waiting _ _ _ _ _ Hbefore).
  pose proof (run_waiting_running _ _ _ _ Hbefore) as Hrun.
  rewrite run_cons by exact Hrun.
  assert (Hp : LCP.processPacket message_type (LCPRun.finish_packet quit) s1 =
               LCP.Returned
                 (LCP.mkState true
                    (LCP.events s1 ++ [LCP.deleted (LCPRun.finish_packet quit)]))).
  { unfold LCP.processPacket, LCPRun.finish_packet.
    rewrite <- (app_nil_r (le_split sizeof_SInt32 quit)) at 1.
    unfold sizeof_SInt32 at 1.
    rewrite (load_SInt32_here quit [] Hrange), Hquit. reflexivity. }
  rewrite Hp. apply run_finished. reflexivity.
Qed.

Lemma lcp_finish_ends_run_witness :
  LCPRun.run LCP.example_message_type
    ([LCPRun.commid_update_packet 1 3 (-1)] ++ LCPRun.finish_packet 0 :: [le_split 4 8])
    LCP.idle =
    LCPRun.Stopped
      (LCP.mkState true
         ([ LCP.updateCommToCoreMap 3 (-1);
            LCP.deleted (LCPRun.commid_update_packet 1 3 (-1)) ]
          ++ [LCP.deleted (LCPRun.finish_packet 0)]))
      [le_split 4 8].
Proof.
  apply (lcp_finish_ends_run LCP.example_message_type 0
           [LCPRun.commid_update_packet 1 3 (-1)] [le_split 4 8] LCP.idle
           (LCP.mkState false
              [ LCP.updateCommToCoreMap 3 (-1);
                LCP.deleted (LCPRun.commid_update_packet 1 3 (-1)) ])).
  - reflexivity.
  - unfold LCPRun.in_SInt32. lia.
  - reflexivity.
Defined.

(** * Further properties of the MCP *)

Lemma broadcast_cores_trace core_ids : forall pkt net,
  MCP.broadcast_cores core_ids pkt net =
    MCP.Done tt
      (MCP.mkNetwork (MCP.inbound net)
         (MCP.trace net ++
          map (fun core_id => MCP.Sent (MCP.set_receiver (Z.of_nat core_id) pkt)) core_ids)).
Proof.
  induction core_ids as [|c core_ids IH]; intros pkt net.
  - simpl. rewrite app_nil_r. destruct net; reflexivity.
  - simpl. unfold MCP.bind, MCP.netSend. rewrite IH. simpl.
    rewrite <- app_assoc. reflexivity.
Qed.

(** X11: [broadcastPacket] sends the packet once to every core, from core 0
    to the last in ascending order, each time with the MCP core as sender;
    it waits for nothing, so it always returns, and it takes no packet off
    the network. *)
Theorem broadcastPacket_trace g_config pkt net :
  MCP.broadcastPacket g_config pkt net =
    MCP.Done tt
      (MCP.mkNetwork (MCP.inbound net)
         (MCP.trace net ++
          map (fun core_id =>
                 MCP.Sent (MCP.mkNetPacket (MCP.type pkt) (getMCPCoreNum g_config)
                             (Z.of_nat core_id) (MCP.data pkt)))
              (seq 0 (getTotalCores g_config)))).
Proof.
  unfold MCP.broadcastPacket. rewrite broadcast_cores_trace. reflexivity.
Qed.

(** X12: [broadcastPacketToProcesses] returns whenever every process has a
    core and at least as many responses are on their way as there are
    processes. It then has taken the oldest of these responses, one per
    process, and has left every other packet on the network, in its
    place. *)
Theorem broadcast_to_processes_returns g_config pkt net
    (Hcores : Forall (fun p => MCP.first_core g_config p <> None)
                (seq 0 (getProcessCount g_config)))
    (Henough : (getProcessCount g_config
                <= length (filter MCP.is_response (MCP.inbound net)))%nat) :
  exists net',
    MCP.broadcastPacketToProcesses g_config pkt net = MCP.Done tt net' /\
    filter MCP.is_response (MCP.inbound net') =
      skipn (getProcessCount g_config) (filter MCP.is_response (MCP.inbound net)) /\
    filter (fun p => negb (MCP.is_response p)) (MCP.inbound net') =
      filter (fun p => negb (MCP.is_response p)) (MCP.inbound net).
Proof.
  unfold MCP.broadcastPacketToProcesses.
  pose proof (broadcast_processes_spec g_config (seq 0 (getProcessCount g_config))
                (MCP.set_sender (getMCPCoreNum g_config) pkt) net) as H.
  rewrite length_seq in H.
  destruct (MCP.broadcast_processes g_config (seq 0 (getProcessCount g_config))
              (MCP.set_sender (getMCPCoreNum g_config) pkt) net)
    as [[] net'|net'|msg|].
  - destruct H as (responses & Hlen & _ & _ & _ & Hf & Hn).
    exists net'. split; [reflexivity|]. split; [|symmetry; exact Hn].
    rewrite Hf, <- Hlen, skipn_app, skipn_all, Nat.sub_diag. reflexivity.
  - lia.
  - contradiction.
  - exfalso. apply Exists_exists in H. destruct H as (p & Hin & Hnone).
    rewrite Forall_forall in Hcores. exact (Hcores p Hin Hnone).
Qed.

Lemma broadcast_to_processes_returns_witness :
  exists net',
    MCP.broadcastPacketToProcesses Example.cfg MCP.update MCP.example_network
      = MCP.Done tt net' /\
    MCP.inbound net' = [MCP.mkNetPacket MCP.MCP_REQUEST_TYPE 5 0 []].
Proof.
  destruct (broadcast_to_processes_returns Example.cfg MCP.update MCP.example_network
              ltac:(repeat constructor; discriminate) ltac:(simpl; lia))
    as (net' & Hrun & _ & _).
  exists net'. split; [exact Hrun|].
  vm_compute in Hrun. inversion Hrun. reflexivity.
Defined.

Lemma received_buffers_app a b :
  MCPRun.received_buffers (a ++ b) = MCPRun.received_buffers a ++ MCPRun.received_buffers b.
Proof. unfold MCPRun.received_buffers. apply flat_map_app. Qed.

Lemma deleted_buffers_app a b :
  MCPRun.deleted_buffers (a ++ b) = MCPRun.deleted_buffers a ++ MCPRun.deleted_buffers b.
Proof. unfold MCPRun.deleted_buffers. apply flat_map_app. Qed.

(** In the rounds of a broadcast every buffer received is released, in the
    order of receipt. *)
Lemma rounds_buffers g_config pkt proc_ids : forall responses,
  MCPRun.received_buffers (MCP.rounds g_config pkt proc_ids responses) =
  MCPRun.deleted_buffers (MCP.rounds g_config pkt proc_ids responses).
Proof.
  induction proc_ids as [|p proc_ids IH]; intros [|r responses]; simpl;
    try reflexivity.
  rewrite received_buffers_app, deleted_buffers_app, IH. f_equal.
  unfold MCP.round. destruct (MCP.first_core g_config p); reflexivity.
Qed.

(** X13: a turn of the loop of the MCP that returns has taken the oldest
    packet of type MCP_REQUEST_TYPE or MCP_SYSTEM_TYPE, and what it has
    released is what it has received: the buffer of that packet and, in a
    broadcast, the buffers of the responses, each once. [m_finished] is set
    by a QUIT message and is otherwise what it was. *)
Theorem mcp_run_releases_what_it_receives g_config message_type m_finished net
    finished' net'
    (Hrun : MCP.run g_config message_type m_finished net = MCP.Done finished' net') :
  exists recv_pkt rest msg_type new,
    MCP.take_matching MCPRun.request_match (MCP.inbound net) = Some (recv_pkt, rest) /\
    load_SInt32 (MCP.data recv_pkt) 0 = Some msg_type /\
    finished' = m_finished || MCPRun.is_quit (message_type msg_type) /\
    MCP.trace net' = MCP.trace net ++ new /\
    Permutation (MCPRun.received_buffers new) (MCPRun.deleted_buffers new) /\
    In (MCP.data recv_pkt) (MCPRun.deleted_buffers new).
Proof.
  unfold MCP.run, MCP.bind at 1, MCP.netRecv in Hrun.
  change (MCP.mkNetMatch [MCP.MCP_REQUEST_TYPE; MCP.MCP_SYSTEM_TYPE])
    with MCPRun.request_match in Hrun.
  destruct (MCP.take_matching MCPRun.request_match (MCP.inbound net))
    as [[recv_pkt rest]|] eqn:Htake; [|discriminate].
  destruct (load_SInt32 (MCP.data recv_pkt) 0) as [msg_type|] eqn:Hload;
    [|discriminate].
  exists recv_pkt, rest, msg_type.
  unfold MCP.bind at 1 in Hrun.
  destruct (message_type msg_type) as [m|] eqn:Hm; [|discriminate].
  assert (Hserve : forall fin : bool,
            MCP.bind (MCP.serve msg_type (MCP.sender recv_pkt))
              (fun (_ : unit) (net0 : MCP.Network) => MCP.Done fin net0)
              (MCP.mkNetwork rest (MCP.trace net ++ [MCP.Received recv_pkt])) =
            MCP.Done fin
              (MCP.mkNetwork rest
                 ((MCP.trace net ++ [MCP.Received recv_pkt]) ++
                  [MCP.Served msg_type (MCP.sender recv_pkt)]))) by reflexivity.
  destruct m;
    try (rewrite Hserve in Hrun; simpl in Hrun; inversion Hrun; subst;
         exists [MCP.Received recv_pkt; MCP.Served msg_type (MCP.sender recv_pkt);
                 MCP.Deleted (MCP.data recv_pkt)];
         simpl; rewrite <- !app_assoc, ?orb_false_r;
         repeat split; solve [assumption | reflexivity | apply Permutation_refl | left; reflexivity]).
  - simpl in Hrun. inversion Hrun; subst.
    exists [MCP.Received recv_pkt; MCP.Deleted (MCP.data recv_pkt)].
    simpl. rewrite <- !app_assoc, orb_true_r.
    repeat split; solve [assumption | reflexivity | apply Permutation_refl | left; reflexivity].
  - unfold MCP.bind at 1 in Hrun. unfold MCP.broadcastPacketToProcesses in Hrun.
    pose proof (broadcast_processes_spec g_config (seq 0 (getProcessCount g_config))
                  (MCP.set_sender (getMCPCoreNum g_config)
                     (MCP.set_type MCP.SIM_THREAD_UPDATE_COMM_MAP recv_pkt))
                  (MCP.mkNetwork rest (MCP.trace net ++ [MCP.Received recv_pkt]))) as H.
    destruct (MCP.broadcast_processes g_config (seq 0 (getProcessCount g_config))
                (MCP.set_sender (getMCPCoreNum g_config)
                   (MCP.set_type MCP.SIM_THREAD_UPDATE_COMM_MAP recv_pkt))
                (MCP.mkNetwork rest (MCP.trace net ++ [MCP.Received recv_pkt])))
      as [[] net1|net1|msg|]; try discriminate.
    destruct H as (responses & _ & _ & _ & Ht & _ & _).
    simpl in Hrun. inversion Hrun; subst. simpl in Ht.
    exists ([MCP.Received recv_pkt] ++
            MCP.rounds g_config
              (MCP.set_sender (getMCPCoreNum g_config)
                 (MCP.set_type MCP.SIM_THREAD_UPDATE_COMM_MAP recv_pkt))
              (seq 0 (getProcessCount g_config)) responses ++
            [MCP.Deleted (MCP.data recv_pkt)]).
    split; [solve [assumption | reflexivity]|].
    split; [solve [assumption | reflexivity]|]. rewrite orb_false_r.
    split; [reflexivity|].
    split; [simpl MCP.trace; rewrite Ht, <- !app_assoc; reflexivity|].
    rewrite !received_buffers_app, !deleted_buffers_app, rounds_buffers. simpl.
    rewrite app_nil_r. split.
    + apply Permutation_cons_append.
    + apply in_or_app. right. left. reflexivity.
Qed.

Lemma mcp_run_releases_what_it_receives_witness :
  exists net',
    MCP.run Example.cfg MCP.example_message_type false MCP.update_network
      = MCP.Done false net' /\
    MCPRun.deleted_buffers (MCP.trace net') = [[]; []; []; le_split 4 12] /\
    MCPRun.received_buffers (MCP.trace net') = [le_split 4 12; []; []; []].
Proof.
  destruct (MCP.run Example.cfg MCP.example_message_type false MCP.update_network)
    as [fin net'| | |] eqn:E; vm_compute in E; try discriminate.
  destruct (mcp_run_releases_what_it_receives Example.cfg MCP.example_message_type
              false MCP.update_network fin net' ltac:(vm_compute; exact E))
    as (recv_pkt & rest & msg_type & new & _ & _ & Hfin & _).
  inversion E; subst. eexists. split; [reflexivity|]. split; reflexivity.
Defined.

Lemma take_matching_skip m before pkt rest :
  Forall (fun p => MCP.matches m p = false) before ->
  MCP.matches m pkt = true ->
  MCP.take_matching m (before ++ pkt :: rest) = Some (pkt, before ++ rest).
Proof.
  intros Hbefore Hpkt. induction Hbefore as [|p before Hp _ IH]; simpl.
  - rewrite Hpkt. reflexivity.
  - rewrite Hp, IH. reflexivity.
Qed.

(** X14: [finish] ends the loop of the MCP. When the packet [finish] sends
    is the oldest request on the network, behind any number of packets of
    other types, the next turn of the loop takes it, sets [m_finished],
    releases its buffer and leaves the other packets where they are. *)
Theorem mcp_finish_ends_run g_config message_type self quit m_finished before rest
    events
    (Hquit : message_type quit = Some MCP.MCP_MESSAGE_QUIT)
    (Hrange : LCPRun.in_SInt32 quit)
    (Hbefore : Forall (fun p => MCPRun.is_request p = false) before) :
  MCP.run g_config message_type m_finished
    (MCP.mkNetwork (before ++ MCPRun.finish_packet g_config self quit :: rest) events) =
    MCP.Done true
      (MCP.mkNetwork (before ++ rest)
         (events ++ [ MCP.Received (MCPRun.finish_packet g_config self quit);
                      MCP.Deleted (le_split sizeof_SInt32 quit) ])).
Proof.
  unfold MCP.run, MCP.bind at 1, MCP.netRecv. simpl MCP.inbound.
  change (MCP.mkNetMatch [MCP.MCP_REQUEST_TYPE; MCP.MCP_SYSTEM_TYPE])
    with MCPRun.request_match.
  rewrite (take_matching_skip MCPRun.request_match before
             (MCPRun.finish_packet g_config self quit) rest Hbefore eq_refl).
  assert (Hload : load_SInt32 (MCP.data (MCPRun.finish_packet g_config self quit)) 0
                  = Some quit) by exact (load_SInt32_here quit [] Hrange).
  rewrite Hload, Hquit.
  unfold MCP.bind, MCP.delete, MCP.log. simpl. rewrite <- app_assoc. reflexivity.
Qed.

Lemma mcp_finish_ends_run_witness :
  MCP.run Example.cfg MCP.example_message_type false
    (MCP.mkNetwork ([MCP.response 2] ++ MCPRun.finish_packet Example.cfg 0 1 :: [MCP.update])
       []) =
    MCP.Done true
      (MCP.mkNetwork ([MCP.response 2] ++ [MCP.update])
         ([] ++ [ MCP.Received (MCPRun.finish_packet Example.cfg 0 1);
                  MCP.Deleted (le_split sizeof_SInt32 1) ])).
Proof.
  apply (mcp_finish_ends_run Example.cfg MCP.example_message_type 0 1 false
           [MCP.response 2] [MCP.update] []).
  - reflexivity.
  - unfold LCPRun.in_SInt32. lia.
  - repeat constructor.
Defined.
